(** * libnetconf [src/session.c]: sessions, framing and capability sets

    A shallow embedding of [session.c] and the properties its
    specification states about it.

    Conventions of the embedding.
    - C strings are [list byte] without their terminating NUL; a buffer
      that may hold NUL bytes is viewed as a C string through [c_str].
    - Pointers that the code tests against [NULL] are [option]s.
    - [int]/[size_t]/[unsigned long long] values are [Z]; the 64-bit
      unsigned wrap-around is written out where the code relies on it.
    - Functions that return [EXIT_SUCCESS]/[EXIT_FAILURE] and touch the
      transport return a [res]: the value and the new world, a failure,
      a non-terminating loop, or undefined behaviour of the C program.
    - Memory allocation is assumed to succeed; logging ([ERROR],
      [WARN], [DBG]) is not modelled.
    - libxml2's reader and writer are parameters of the code that
      calls them. *)

From Stdlib Require Import String Strings.Byte.
From Stdlib Require Import ZArith List Lia Bool.
Import ListNotations.
Open Scope Z_scope.

(** ** C strings and the libc functions the code calls *)

Module CStr.

Definition cstring := list byte.

(** Bytes of a string literal. *)
Definition bs (s : string) : cstring := list_byte_of_string s.

Definition NUL : byte := x00.
Definition LF : byte := x0a.
Definition DQUOTE : byte := x22.

Definition is_nul (b : byte) : bool := Byte.eqb b NUL.

(** The C string stored at the start of a buffer: the bytes before the
    first NUL ([strlen], [strdup], [strcat] all stop there). *)
Fixpoint c_str (buf : list byte) : cstring :=
  match buf with
  | [] => []
  | b :: t => if is_nul b then [] else b :: c_str t
  end.

Definition no_nul (s : list byte) : Prop := Forall (fun b => b <> NUL) s.

Fixpoint bytes_eqb (a b : list byte) : bool :=
  match a, b with
  | [], [] => true
  | x :: a', y :: b' => Byte.eqb x y && bytes_eqb a' b'
  | _, _ => false
  end.

(** [strcmp (a, b) == 0] on C strings. *)
Definition streq (a b : cstring) : bool := bytes_eqb a b.

(** The last [n] elements of a list. *)
Definition lastn {A} (n : nat) (l : list A) : list A :=
  skipn (length l - n) l.

Definition UINT64_MOD : Z := 2 ^ 64.
Definition UINT64_MAX : Z := 2 ^ 64 - 1.
Definition INT32_MOD : Z := 2 ^ 32.

Definition is_digit (b : byte) : bool :=
  let n := Z.of_N (Byte.to_N b) in (48 <=? n) && (n <=? 57).

Definition digit_val (b : byte) : Z := Z.of_N (Byte.to_N b) - 48.

Definition isspace (b : byte) : bool :=
  let n := Z.of_N (Byte.to_N b) in (n =? 32) || ((9 <=? n) && (n <=? 13)).

Fixpoint skip_space (s : cstring) : cstring :=
  match s with
  | b :: t => if isspace b then skip_space t else s
  | [] => []
  end.

(** Value of the leading decimal digits of [s], on top of [acc]. *)
Fixpoint strtou_digits (acc : Z) (s : cstring) : Z :=
  match s with
  | b :: t => if is_digit b then strtou_digits (acc * 10 + digit_val b) t else acc
  | [] => acc
  end.

(** [strtoul (s, NULL, 10)] and [strtoull (s, NULL, 10)] on an LP64
    platform: optional white space, optional sign, the leading decimal
    digits; no digits give 0, a value that does not fit gives the
    largest value, a minus sign negates modulo 2^64. *)
Definition strtoull (s : cstring) : Z :=
  let s1 := skip_space s in
  let '(neg, s2) :=
    match s1 with
    | b :: t => if Byte.eqb b "-" then (true, t)
                else if Byte.eqb b "+" then (false, t)
                else (false, s1)
    | [] => (false, s1)
    end in
  let v := strtou_digits 0 s2 in
  if v >? UINT64_MAX then UINT64_MAX
  else if neg then (UINT64_MOD - v) mod UINT64_MOD
  else v.

Definition strtoul := strtoull.

Definition digit_byte (d : Z) : byte :=
  match Byte.of_N (Z.to_N (48 + d)) with
  | Some b => b
  | None => "0"%byte
  end.

(** Decimal digits of a non-negative number, most significant first. *)
Fixpoint dec_digits (fuel : nat) (n : Z) (acc : cstring) : cstring :=
  match fuel with
  | O => acc
  | S f =>
      let acc' := digit_byte (n mod 10) :: acc in
      if n <? 10 then acc' else dec_digits f (n / 10) acc'
  end.

(** What [printf] writes for ["%llu"]. *)
Definition dec_u (n : Z) : cstring :=
  dec_digits (S (Z.to_nat (Z.log2 n))) n [].

(** What [printf] writes for ["%d"]. *)
Definition dec_d (n : Z) : cstring :=
  if n <? 0 then "-"%byte :: dec_u (- n) else dec_u n.

(** Conversion of a [size_t] to [int]. *)
Definition int_of_size (n : Z) : Z :=
  let m := n mod INT32_MOD in
  if m <? 2 ^ 31 then m else m - INT32_MOD.

End CStr.
Export CStr.

(** ** The capability set: [nc_cpblts_*] *)

Module Cpblts.

(** Outcome of a function that only touches memory: a value, or
    undefined behaviour of the C program (a read or write outside an
    allocation, a use of an uninitialised pointer, a NULL dereference). *)
Inductive outcome (A : Type) : Type :=
| Done (a : A)
| Undefined.
Arguments Done {A} a.
Arguments Undefined {A}.

Definition obind {A B} (m : outcome A) (k : A -> outcome B) : outcome B :=
  match m with
  | Done a => k a
  | Undefined => Undefined
  end.

Notation "x <- m ;; k" := (obind m (fun x => k))
  (at level 61, m at next level, right associativity).

(** One [char*] cell of the storage: not yet written since the
    allocation, the NULL pointer, or a pointer to a string. *)
Inductive slot : Type :=
| Undef
| Null
| Str (s : cstring).

(** Modelled from the spec: [struct nc_cpblts] is declared in
    [netconf_internal.h], outside [session.c]; its fields are the ones
    the code uses, the three [int]s and [char **list]. *)
Record nc_cpblts : Type := mk_cpblts {
  iter : Z;
  list_size : Z;
  items : Z;
  clist : option (list slot)
}.

Definition EXIT_SUCCESS : Z := 0.
Definition EXIT_FAILURE : Z := 1.

(** [sizeof (char* )] on LP64. *)
Definition SIZEOF_PTR : Z := 8.

Definition in_block (l : list slot) (i : Z) : bool :=
  (0 <=? i) && (i <? Z.of_nat (length l)).

(** [l[i]] as an rvalue. *)
Definition load (l : list slot) (i : Z) : outcome slot :=
  if in_block l i then Done (nth (Z.to_nat i) l Undef) else Undefined.

Fixpoint set_nth (l : list slot) (n : nat) (v : slot) : list slot :=
  match l, n with
  | [], _ => []
  | _ :: t, O => v :: t
  | x :: t, S m => x :: set_nth t m v
  end.

(** [l[i] = v]. *)
Definition store (l : list slot) (i : Z) (v : slot) : outcome (list slot) :=
  if in_block l i then Done (set_nth l (Z.to_nat i) v) else Undefined.

(** [malloc (n * sizeof (char* ))]: [n] cells, none written. *)
Definition malloc_slots (n : Z) : list slot := repeat Undef (Z.to_nat n).

(** [realloc (l, nbytes)]: the block now has [nbytes] bytes, that is
    [nbytes / sizeof (char* )] whole cells; the cells kept are
    unchanged, the new ones are not written. *)
Definition realloc (l : list slot) (nbytes : Z) : list slot :=
  let n := Z.to_nat (nbytes / SIZEOF_PTR) in
  firstn n l ++ repeat Undef (n - length l).

(** [void nc_cpblts_free (struct nc_cpblts *c)]; the result is what was
    handed to [free]: the strings and the number of other blocks. *)
Fixpoint free_items (l : list slot) (i : Z) (n : nat) : outcome (list cstring) :=
  match n with
  | O => Done []
  | S m =>
      v <- load l i ;;
      match v with
      | Undef => Undefined
      | Null => free_items l (i + 1) m
      | Str s => r <- free_items l (i + 1) m ;; Done (s :: r)
      end
  end.

Definition nc_cpblts_free (c : option nc_cpblts) : outcome (list cstring * nat) :=
  match c with
  | None => Done ([], 0%nat)
  | Some c =>
      match clist c with
      | Some l =>
          if items c <=? list_size c
          then r <- free_items l 0 (Z.to_nat (items c)) ;; Done (r, 2%nat)
          else Done ([], 2%nat)
      | None => Done ([], 1%nat)
      end
  end.

(** The body of the loop of [nc_cpblts_new] and of [nc_cpblts_add]
    after the string is stored at [i]: count it, double the capacity
    when it is reached, write NULL at [term]. The byte count passed to
    [realloc] is [list_size * 2], as in the source. *)
Definition grow_and_terminate (c : nc_cpblts) (l : list slot) (term : Z -> Z)
  : outcome nc_cpblts :=
  let n := items c + 1 in
  let '(l1, size1) :=
    if n =? list_size c
    then (realloc l (list_size c * 2), list_size c * 2)
    else (l, list_size c) in
  l2 <- store l1 (term n) Null ;;
  Done (mk_cpblts (iter c) size1 n (Some l2)).

(** [for (i = 0, item = list[i]; item != NULL; item = list[i++])],
    entered with a non-NULL [item] at index [i] of the result.
    [pending] holds the strings [list[i++]] has yet to read before the
    NULL that ends the input array: all of them at the start, since
    the first [list[i++]] reads [list[0]] a second time. *)
Fixpoint new_loop (pending : list cstring) (i : Z) (item : cstring)
    (c : nc_cpblts) : outcome nc_cpblts :=
  match clist c with
  | None => Undefined
  | Some l =>
      l1 <- store l i (Str item) ;;
      c1 <- grow_and_terminate c l1 (fun _ => i + 1) ;;
      match pending with
      | [] => Done c1
      | next :: pending' => new_loop pending' (i + 1) next c1
      end
  end.

(** [struct nc_cpblts *nc_cpblts_new (char **list)]; the input array
    is given by the strings before its NULL. *)
Definition nc_cpblts_new (list : option (list cstring)) : outcome nc_cpblts :=
  l0 <- store (malloc_slots 10) 0 Null ;;
  let retval := mk_cpblts 0 10 0 (Some l0) in
  match list with
  | None | Some [] => Done retval
  | Some ((first :: _) as src) => new_loop src 0 first retval
  end.

(** [int nc_cpblts_add (struct nc_cpblts *capabilities, const char*
    capability_string)]; the set after the call comes with the result. *)
Definition nc_cpblts_add (capabilities : option nc_cpblts)
    (capability_string : option cstring) : outcome (Z * option nc_cpblts) :=
  match capabilities, capability_string with
  | Some c, Some s =>
      if items c >? list_size c then Done (EXIT_FAILURE, Some c)
      else
        match clist c with
        | None => Undefined
        | Some l =>
            l1 <- store l (items c) (Str s) ;;
            c1 <- grow_and_terminate c l1 (fun n => n + 1) ;;
            Done (EXIT_SUCCESS, Some c1)
        end
  | _, _ => Done (EXIT_FAILURE, capabilities)
  end.

(** The search loop of [nc_cpblts_remove]: the first [i < items] with
    [list[i] != NULL && strcmp (list[i], s) == 0], or [items]. *)
Fixpoint find_from (l : list slot) (s : cstring) (i : Z) (n : nat) : outcome Z :=
  match n with
  | O => Done i
  | S m =>
      v <- load l i ;;
      match v with
      | Undef => Undefined
      | Null => find_from l s (i + 1) m
      | Str t => if streq t s then Done i else find_from l s (i + 1) m
      end
  end.

(** [int nc_cpblts_remove (struct nc_cpblts *capabilities, const char*
    capability_string)]. *)
Definition nc_cpblts_remove (capabilities : option nc_cpblts)
    (capability_string : option cstring) : outcome (Z * option nc_cpblts) :=
  match capabilities, capability_string with
  | Some c, Some s =>
      if items c >? list_size c then Done (EXIT_FAILURE, Some c)
      else
        match clist c with
        | None => if 0 <? items c then Undefined else Done (EXIT_SUCCESS, Some c)
        | Some l =>
            i <- find_from l s 0 (Z.to_nat (items c)) ;;
            if i <? items c then
              last <- load l (items c - 1) ;;
              l1 <- store l i last ;;
              l2 <- store l1 (items c - 1) Null ;;
              Done (EXIT_SUCCESS,
                    Some (mk_cpblts (iter c) (list_size c - 1) (items c) (Some l2)))
            else Done (EXIT_SUCCESS, Some c)
        end
  | _, _ => Done (EXIT_FAILURE, capabilities)
  end.

(** [void nc_cpblts_iter_start (struct nc_cpblts *c)]. *)
Definition nc_cpblts_iter_start (c : option nc_cpblts) : option nc_cpblts :=
  match c with
  | None => None
  | Some c => Some (mk_cpblts 0 (list_size c) (items c) (clist c))
  end.

(** [char *nc_cpblts_iter_next (struct nc_cpblts *c)]: the copy
    returned (NULL is [None]) and the set with its cursor moved. *)
Definition nc_cpblts_iter_next (c : option nc_cpblts)
  : outcome (option cstring * option nc_cpblts) :=
  match c with
  | None => Done (None, None)
  | Some c0 =>
      match clist c0 with
      | None => Done (None, c)
      | Some l =>
          if iter c0 >? items c0 - 1 then Done (None, c)
          else
            v <- load l (iter c0) ;;
            match v with
            | Str s =>
                Done (Some s,
                      Some (mk_cpblts (iter c0 + 1) (list_size c0) (items c0) (clist c0)))
            | _ => Undefined
            end
      end
  end.

(** [struct nc_cpblts *nc_session_get_cpblts_default ()]; the results
    of the six [nc_cpblts_add] calls are dropped, as in the source. *)
Definition add_ignoring (c : option nc_cpblts) (s : string) : outcome (option nc_cpblts) :=
  r <- nc_cpblts_add c (Some (bs s)) ;; Done (snd r).

Definition nc_session_get_cpblts_default : outcome (option nc_cpblts) :=
  retval <- nc_cpblts_new None ;;
  c1 <- add_ignoring (Some retval) "urn:ietf:params:netconf:base:1.0" ;;
  c2 <- add_ignoring c1 "urn:ietf:params:netconf:base:1.0" ;;
  c3 <- add_ignoring c2 "urn:ietf:params:netconf:base:1.1" ;;
  c4 <- add_ignoring c3 "urn:ietf:params:netconf:capability:writable-running:1.0" ;;
  c5 <- add_ignoring c4 "urn:ietf:params:netconf:capability:candidate:1.0" ;;
  add_ignoring c5 "urn:ietf:params:netconf:capability:startup:1.0".

End Cpblts.
Export Cpblts.

#[local] Set Warnings "-register-all".

(** ** The part of the libxml2 document tree the session code reads
    and writes *)

Module Xml.

Inductive xmlElementType : Type :=
| XML_ELEMENT_NODE
| XML_TEXT_NODE
| XML_COMMENT_NODE.

(** [xmlNode]: [type], [name], [properties] (attribute name and value),
    [nsDef] (prefix, NULL for the default namespace, and href),
    [children] and [content]. *)
Inductive xmlNode : Type :=
| Node (type : xmlElementType) (name : cstring)
       (properties : list (cstring * cstring))
       (nsDef : list (option cstring * cstring))
       (children : list xmlNode) (content : cstring).

Definition node_type (n : xmlNode) := let 'Node t _ _ _ _ _ := n in t.
Definition node_name (n : xmlNode) := let 'Node _ x _ _ _ _ := n in x.
Definition node_properties (n : xmlNode) := let 'Node _ _ p _ _ _ := n in p.
Definition node_nsDef (n : xmlNode) := let 'Node _ _ _ d _ _ := n in d.
Definition node_children (n : xmlNode) := let 'Node _ _ _ _ c _ := n in c.
Definition node_content (n : xmlNode) := let 'Node _ _ _ _ _ c := n in c.

(** [xmlDoc]: only [children] is used. *)
Record xmlDoc : Type := mk_doc { doc_children : list xmlNode }.

Definition is_element (n : xmlNode) : bool :=
  match node_type n with XML_ELEMENT_NODE => true | _ => false end.

Fixpoint assoc (k : cstring) (l : list (cstring * cstring)) : option cstring :=
  match l with
  | [] => None
  | (k', v) :: t => if streq k' k then Some v else assoc k t
  end.

(** [xmlGetProp (node, name)]: NULL unless [node] is an element that
    has the attribute. *)
Definition xmlGetProp (node : option xmlNode) (name : cstring) : option cstring :=
  match node with
  | None => None
  | Some n => if is_element n then assoc name (node_properties n) else None
  end.

Fixpoint set_assoc (k v : cstring) (l : list (cstring * cstring))
  : list (cstring * cstring) :=
  match l with
  | [] => [(k, v)]
  | (k', v') :: t => if streq k' k then (k', v) :: t else (k', v') :: set_assoc k v t
  end.

(** [xmlSetProp (node, name, value)]: replaces the value of the
    attribute or appends it; nothing on a node that is not an element. *)
Definition xmlSetProp (n : xmlNode) (name value : cstring) : xmlNode :=
  let 'Node t x p d c s := n in
  match t with
  | XML_ELEMENT_NODE => Node t x (set_assoc name value p) d c s
  | _ => n
  end.

Definition has_default_ns (d : list (option cstring * cstring)) : bool :=
  existsb (fun e => match fst e with None => true | Some _ => false end) d.

(** [xmlNewNs (node, href, NULL)]: declares the default namespace on an
    element that does not declare one yet. *)
Definition xmlNewNs (n : xmlNode) (href : cstring) : xmlNode :=
  let 'Node t x p d c s := n in
  match t with
  | XML_ELEMENT_NODE =>
      if has_default_ns d then n else Node t x p (d ++ [(None, href)]) c s
  | _ => n
  end.

(** A compact serialisation, used to run the code on examples: the
    code itself is stated over any serialiser and any parser. *)
Definition dump_attr (a : cstring * cstring) : cstring :=
  bs " " ++ fst a ++ bs "=" ++ [DQUOTE] ++ snd a ++ [DQUOTE].

Definition dump_ns (d : option cstring * cstring) : cstring :=
  match fst d with
  | None => bs " xmlns=" ++ [DQUOTE] ++ snd d ++ [DQUOTE]
  | Some p => bs " xmlns:" ++ p ++ bs "=" ++ [DQUOTE] ++ snd d ++ [DQUOTE]
  end.

Fixpoint dump_node (n : xmlNode) : cstring :=
  let 'Node t x p d c s := n in
  match t with
  | XML_ELEMENT_NODE =>
      bs "<" ++ x ++ concat (map dump_attr p) ++ concat (map dump_ns d) ++
      match c with
      | [] => bs "/>"
      | _ =>
          bs ">" ++
          (fix dump_list (l : list xmlNode) : cstring :=
             match l with
             | [] => []
             | k :: r => dump_node k ++ dump_list r
             end) c ++
          bs "</" ++ x ++ bs ">"
      end
  | XML_TEXT_NODE => s
  | XML_COMMENT_NODE => bs "<!--" ++ s ++ bs "-->"
  end.

Definition dump_doc (d : xmlDoc) : cstring := concat (map dump_node (doc_children d)).

(** A reader that knows the documents of [corpus]: it returns the
    first one whose compact serialisation is the text. *)
Definition read_corpus (corpus : list xmlDoc) (text : cstring) : option xmlDoc :=
  find (fun d => bytes_eqb (dump_doc d) text) corpus.

Definition elem (name : string) (attrs : list (string * string))
    (kids : list xmlNode) : xmlNode :=
  Node XML_ELEMENT_NODE (bs name)
       (map (fun a => (bs (fst a), bs (snd a))) attrs) [] kids [].

End Xml.
Export Xml.

(** ** Sessions: the transport, the two framings, send and receive *)

Module Session.

(** Modelled from the spec: the tag of protocol version 1.0, defined
    outside [session.c]; of the two tags only that they differ
    matters. *)
Definition NETCONFV10 : Z := 0.

(** Modelled from the spec: the tag of protocol version 1.1. *)
Definition NETCONFV11 : Z := 1.

(** Modelled from the spec: the version 1.0 terminator, the six bytes
    []]>]]>], defined in [netconf_internal.h]. *)
Definition NC_V10_END_MSG : cstring := bs "]]>]]>".

(** Modelled from the spec: the version 1.1 terminator [\n##\n],
    defined in [netconf_internal.h]. *)
Definition NC_V11_END_MSG : cstring := [LF] ++ bs "##" ++ [LF].

(** Modelled from the spec: the base namespace of version 1.0. *)
Definition NC_NS_BASE10 : cstring := bs "urn:ietf:params:xml:ns:netconf:base:1.0".

(** Modelled from the spec: the base namespace of version 1.1. *)
Definition NC_NS_BASE11 : cstring := bs "urn:ietf:params:xml:ns:netconf:base:1.1".

(** Modelled from the spec: the reply classes of [messages.h]. *)
Inductive NC_REPLY_TYPE : Type :=
| NC_REPLY_UNKNOWN
| NC_REPLY_OK
| NC_REPLY_ERROR
| NC_REPLY_DATA.

(** Modelled from the spec: [struct nc_msg] of [netconf_internal.h],
    with the fields [session.c] uses. *)
Record nc_msg : Type := mk_msg {
  msg_doc : xmlDoc;
  msg_msgid : Z;
  msg_type : NC_REPLY_TYPE
}.

(** Modelled from the spec: [struct nc_session] of
    [netconf_internal.h], with the fields [session.c] uses. The two
    libssh2 handles are opaque, only whether they are NULL matters
    ([true] is a live handle). *)
Record nc_session : Type := mk_session {
  session_id : list byte;
  msgid : Z;
  libssh2_socket : Z;
  fd_input : Z;
  fd_output : Z;
  ssh_session : bool;
  ssh_channel : bool;
  hostname : option cstring;
  username : option cstring;
  version : Z;
  capabilities : option nc_cpblts
}.

Definition set_msgid (s : nc_session) (v : Z) : nc_session :=
  mk_session (session_id s) v (libssh2_socket s) (fd_input s) (fd_output s)
             (ssh_session s) (ssh_channel s) (hostname s) (username s)
             (version s) (capabilities s).

(** What the process is given by its surroundings. [malloc_serves n]
    tells whether [malloc] of [n] bytes returns a block; it is asked
    for the one allocation whose size the peer chooses, the
    [malloc (chunk_length + 1)] of [nc_session_read_len]. The other
    allocations are of the size of bytes already received, or of a
    fixed size, and are taken to succeed. [write_taken] tells whether
    the transport takes what is written to it; when it does not,
    [write] and [libssh2_channel_write] return a negative value. *)
Record env : Type := mk_env {
  malloc_serves : Z -> bool;
  write_taken : bool
}.

(** Every request served, every write taken. *)
Definition env_ok : env := mk_env (fun _ => true) true.

(** What lies outside the session object: the surroundings, the bytes
    the peer sends (an empty [w_in] is a closed stream), the bytes
    written so far, and the two static variables of
    [nc_session_read_until] ([buflen], and whether [buf] was freed by
    a failed call). Retries after [EAGAIN] and short reads or writes
    do not change what is read or written and are not modelled; the
    only read error is the end of the stream. *)
Record world : Type := mk_world_in {
  w_env : env;
  w_in : list byte;
  w_out : list byte;
  rd_buflen : Z;
  rd_buf_freed : bool
}.

(** A world whose allocations are served and whose writes are taken. *)
Definition mk_world : list byte -> list byte -> Z -> bool -> world :=
  mk_world_in env_ok.

Definition world0 (input : list byte) : world := mk_world input [] 0 false.

Inductive res (A : Type) : Type :=
| Ok (a : A) (w : world)
| Failure (w : world)
| Hang
| UB.
Arguments Ok {A} a w.
Arguments Failure {A} w.
Arguments Hang {A}.
Arguments UB {A}.

Definition bind {A B} (m : res A) (k : A -> world -> res B) : res B :=
  match m with
  | Ok a w => k a w
  | Failure w => Failure w
  | Hang => Hang
  | UB => UB
  end.

(** ** Accessors *)

(** [char* nc_session_get_id (const struct nc_session *session)]. *)
Definition nc_session_get_id (session : option nc_session) : option cstring :=
  match session with
  | None => None
  | Some s => Some (c_str (session_id s))
  end.

(** [int nc_session_get_version (const struct nc_session *session)]. *)
Definition nc_session_get_version (session : option nc_session) : Z :=
  match session with
  | None => -1
  | Some s => version s
  end.

(** [int nc_session_get_eventfd (const struct nc_session *session)]. *)
Definition nc_session_get_eventfd (session : option nc_session) : Z :=
  match session with
  | None => -1
  | Some s =>
      if negb (libssh2_socket s =? -1) then libssh2_socket s
      else if negb (fd_input s =? -1) then fd_input s
      else -1
  end.

(** [struct nc_cpblts* nc_session_get_cpblts (const struct nc_session*
    session)]. *)
Definition nc_session_get_cpblts (session : option nc_session) : option nc_cpblts :=
  match session with
  | None => None
  | Some s => capabilities s
  end.

(** ** Reading *)

(** Where a read takes its bytes from: [if (session->ssh_channel) ...
    else if (session->fd_input != -1) ... else ...]. *)
Inductive source : Type :=
| SrcChannel
| SrcFd
| SrcNone.

Definition source_of (s : nc_session) : source :=
  if ssh_channel s then SrcChannel
  else if fd_input s =? -1 then SrcNone
  else SrcFd.

(** A read that finds the stream closed: libssh2 reports end of file
    and the function fails; [read] on a descriptor returns 0, the
    loop adds 0 to [rd] and goes round again, for ever. *)
Definition at_eof {A} (src : source) (w : world) : res A :=
  match src with
  | SrcFd => Hang
  | _ => Failure w
  end.

Definition ends_with (endtag buf : list byte) : bool :=
  bytes_eqb (lastn (length endtag) buf) endtag.

(** The [for (rd = 0;;)] loop of [nc_session_read_until]. [buf] is
    [buf[0..rd-1]]; [zeroed] is the size of the buffer when the call
    cleared it, so [buf[rd]] is known to be 0 exactly when
    [rd < zeroed]: [strcmp] reads that byte once the bytes before it
    match the end tag, and beyond [zeroed] it is outside the block or
    was never written. *)
Fixpoint read_until_loop (e : env) (src : source) (endtag : cstring) (zeroed buflen : Z)
    (buf input : list byte) (out : list byte) : res (cstring * Z) :=
  match input with
  | [] => at_eof src (mk_world_in e [] out buflen true)
  | b :: rest =>
      let buf1 := buf ++ [b] in
      let rd := Z.of_nat (length buf1) in
      if rd <? Z.of_nat (length endtag) then
        read_until_loop e src endtag zeroed buflen buf1 rest out
      else if ends_with endtag buf1 then
        if rd <? zeroed
        then Ok (c_str buf1, rd) (mk_world_in e rest out buflen false)
        else UB
      else
        let buflen1 := if rd =? buflen then 2 * buflen else buflen in
        read_until_loop e src endtag zeroed buflen1 buf1 rest out
  end.

(** [if (buflen == 0) buflen = 1024;] at the start of
    [nc_session_read_until]. *)
Definition start_buflen (buflen : Z) : Z :=
  if buflen =? 0 then 1024 else buflen.

(** [int nc_session_read_until (struct nc_session* session, const char*
    endtag, char **text, size_t *len)]; the result is [( *text, *len)]. *)
Definition nc_session_read_until (session : nc_session) (endtag : cstring)
    (w : world) : res (cstring * Z) :=
  if rd_buf_freed w then UB
  else
    let buflen := start_buflen (rd_buflen w) in
    match source_of session with
    | SrcNone => Failure (mk_world_in (w_env w) (w_in w) (w_out w) buflen true)
    | src => read_until_loop (w_env w) src endtag buflen buflen [] (w_in w) (w_out w)
    end.

(** The [while (rd < chunk_length)] loop of [nc_session_read_len];
    [n] is [chunk_length - rd]. *)
Fixpoint read_len_loop (src : source) (n : Z) (buf input : list byte)
    (w : world) : res (cstring * Z) :=
  if n <=? 0 then
    Ok (c_str buf, Z.of_nat (length buf))
       (mk_world_in (w_env w) input (w_out w) (rd_buflen w) (rd_buf_freed w))
  else
    match input with
    | [] => at_eof src (mk_world_in (w_env w) [] (w_out w) (rd_buflen w) (rd_buf_freed w))
    | b :: rest => read_len_loop src (n - 1) (buf ++ [b]) rest w
    end.

(** [int nc_session_read_len (struct nc_session* session, size_t
    chunk_length, char **text, size_t *len)]. When [malloc] returns
    NULL the function fails at once and reads nothing. A
    [chunk_length] of 2^64 - 1 makes [chunk_length + 1] wrap to 0 and
    the buffer too small for what is read into it. *)
Definition nc_session_read_len (session : nc_session) (chunk_length : Z)
    (w : world) : res (cstring * Z) :=
  if negb (malloc_serves (w_env w) ((chunk_length + 1) mod UINT64_MOD)) then Failure w
  else if chunk_length =? UINT64_MAX then UB
  else
    match source_of session with
    | SrcNone => if 0 <? chunk_length then Failure w else Ok ([], 0) w
    | src => read_len_loop src chunk_length [] (w_in w) w
    end.

(** The surroundings serve the allocation for a chunk of the size of
    [c]. *)
Definition served (e : env) (c : cstring) : Prop :=
  malloc_serves e (Z.of_nat (length c) + 1) = true.

(** The [NETCONFV10] case of [nc_session_receive]: the store
    [text[len - 1 - strlen (NC_V10_END_MSG)] = 0] is inside the copy
    of [strlen (text) + 1] bytes exactly when the index, computed in
    [size_t], is at most [strlen (text)]. *)
Definition receive_v10 (session : nc_session) (w : world) : res (option cstring) :=
  bind (nc_session_read_until session NC_V10_END_MSG w) (fun r w1 =>
    let '(text, len) := r in
    let idx := (len - 1 - Z.of_nat (length NC_V10_END_MSG)) mod UINT64_MOD in
    if idx <=? Z.of_nat (length text)
    then Ok (Some (firstn (Z.to_nat idx) text)) w1
    else UB).

(** [strcat (text, chunk)] after the [realloc] that makes room for it;
    [text] is NULL before the first chunk. *)
Definition append_chunk (text : option cstring) (chunk : cstring) : option cstring :=
  match text with
  | None => Some chunk
  | Some t => Some (t ++ chunk)
  end.

(** The [do ... while (1)] loop of the [NETCONFV11] case. Every round
    reads at least three bytes, so [fuel] above the length of the
    input is never used up. *)
Fixpoint receive_v11_loop (fuel : nat) (session : nc_session)
    (text : option cstring) (w : world) : res (option cstring) :=
  match fuel with
  | O => Hang
  | S f =>
      bind (nc_session_read_until session ([LF] ++ bs "#") w) (fun _ w1 =>
      bind (nc_session_read_until session [LF] w1) (fun r w2 =>
        let chunk := fst r in
        if streq chunk (bs "#" ++ [LF]) then Ok text w2
        else
          let chunk_length := strtoul chunk in
          if chunk_length =? 0 then Failure w2
          else
            bind (nc_session_read_len session chunk_length w2) (fun r3 w3 =>
              receive_v11_loop f session (append_chunk text (fst r3)) w3)))
  end.

Definition receive_v11 (session : nc_session) (w : world) : res (option cstring) :=
  receive_v11_loop (S (length (w_in w))) session None w.

(** The [switch (session->version)] of [nc_session_receive]: the text
    of one message. *)
Definition receive_text (session : nc_session) (w : world) : res (option cstring) :=
  if version session =? NETCONFV10 then receive_v10 session w
  else if version session =? NETCONFV11 then receive_v11 session w
  else Failure w.

Section WithXml.

(** The two libxml2 entry points: [xmlDocDumpFormatMemory] and
    [xmlReadDoc] (NULL is [None]). *)
Variable xmlDocDumpFormatMemory : xmlDoc -> cstring.
Variable xmlReadDoc : cstring -> option xmlDoc.

(** [nc_session_receive] from [malloc (sizeof (struct nc_msg))] on.
    When the text does not parse the code frees [retval] and [text]
    and goes on: it frees [text] again and reads [retval->doc]. *)
Definition msg_of_text (text : option cstring) (w : world) : res nc_msg :=
  match match text with None => None | Some t => xmlReadDoc t end with
  | None => UB
  | Some doc =>
      match doc_children doc with
      | [] => UB
      | root :: _ =>
          let id :=
            match xmlGetProp (Some root) (bs "message-id") with
            | Some v => strtoull v
            | None => 0
            end in
          if streq (node_name root) (bs "rpc-reply") then
            match node_children root with
            | [] => UB
            | child :: _ =>
                let t :=
                  if streq (node_name child) (bs "ok") then NC_REPLY_OK
                  else if streq (node_name child) (bs "rpc-error") then NC_REPLY_ERROR
                  else if streq (node_name child) (bs "data") then NC_REPLY_DATA
                  else NC_REPLY_UNKNOWN in
                Ok (mk_msg doc id t) w
            end
          else Ok (mk_msg doc id NC_REPLY_UNKNOWN) w
      end
  end.

(** [int nc_session_receive (struct nc_session* session, struct
    nc_msg** msg)]; the result is [*msg]. *)
Definition nc_session_receive (session : option nc_session) (w : world) : res nc_msg :=
  match session with
  | None => Failure w
  | Some s =>
      match hostname s with
      | None => Failure w
      | Some _ => bind (receive_text s w) msg_of_text
      end
  end.

(** Modelled from the spec: [nc_reply_get_msgid], the reply-msgid
    accessor of [messages.c], is not in [session.c]; it returns the
    message id stored in the reply. *)
Definition nc_reply_get_msgid (reply : nc_msg) : Z := msg_msgid reply.

(** [nc_msgid nc_session_recv_reply (struct nc_session* session,
    nc_reply** reply)]: the id returned and [*reply], which is only
    assigned on success. *)
Definition nc_session_recv_reply (session : option nc_session) (w : world)
  : res (Z * option nc_msg) :=
  match nc_session_receive session w with
  | Ok m w1 => Ok (nc_reply_get_msgid m, Some m) w1
  | Failure w1 => Ok (0, None) w1
  | Hang => Hang
  | UB => UB
  end.

(** ** Writing *)

(** The world after [text] went out. *)
Definition written (w : world) (text : cstring) : world :=
  mk_world_in (w_env w) (w_in w) (w_out w ++ text) (rd_buflen w) (rd_buf_freed w).

(** [NC_WRITE] in its [do ... while (c != strlen (text))] loop. On a
    transport that takes the bytes all of [text] ends up written. The
    macro adds what [write] or [libssh2_channel_write] returns to [c]
    without a test: after a write that is refused [c] is negative and
    the next round passes [&(text[c])], an address below the text. *)
Definition nc_write (text : cstring) (w : world) : res unit :=
  if write_taken (w_env w) then Ok tt (written w text) else UB.

(** [int nc_session_send (struct nc_session* session, struct nc_msg
    *msg)]. *)
Definition nc_session_send (session : nc_session) (msg : nc_msg) (w : world) : res unit :=
  if negb (ssh_channel session) && (fd_output session =? -1) then Failure w
  else
    let text := c_str (xmlDocDumpFormatMemory (msg_doc msg)) in
    let endmsg :=
      if version session =? NETCONFV11 then NC_V11_END_MSG else NC_V10_END_MSG in
    bind (if version session =? NETCONFV11
          then nc_write ([LF] ++ bs "#" ++ dec_d (int_of_size (Z.of_nat (length text)))
                              ++ [LF]) w
          else Ok tt w) (fun _ w1 =>
    bind (nc_write text w1) (fun _ w2 =>
    nc_write endmsg w2)).

(** Modelled from the spec: [nc_msg_dup], the duplicate-message helper
    of [messages.c], is not in [session.c]; it returns a deep copy. *)
Definition nc_msg_dup (msg : nc_msg) : nc_msg := msg.

(** The message [nc_session_send_rpc] builds from the copy of [rpc]
    and the session it leaves, before the message is sent: the
    [message-id] attribute when the root is [<rpc>], then the base
    namespace. ["%llu"] needs more than the 16 bytes of [msg_id_str]
    from 10^15 on. *)
Definition stamp_rpc (s : nc_session) (rpc : nc_msg) : option (nc_session * nc_msg) :=
  let msg := nc_msg_dup rpc in
  match doc_children (msg_doc rpc), doc_children (msg_doc msg) with
  | root :: _, mroot :: others =>
      let stamped :=
        if streq (node_name root) (bs "rpc") then
          let msg_id_str := dec_u (msgid s) in
          if Z.of_nat (length msg_id_str) + 1 <=? 16
          then Some (set_msgid s ((msgid s + 1) mod UINT64_MOD),
                     xmlSetProp mroot (bs "message-id") msg_id_str)
          else None
        else Some (s, mroot) in
      match stamped with
      | None => None
      | Some (s1, mroot1) =>
          let ns := if version s =? NETCONFV10 then NC_NS_BASE10 else NC_NS_BASE11 in
          Some (s1, mk_msg (mk_doc (xmlNewNs mroot1 ns :: others))
                           (msg_msgid msg) (msg_type msg))
      end
  | _, _ => None
  end.

(** [nc_msgid nc_session_send_rpc (struct nc_session* session, nc_rpc
    *rpc)]: the id returned and the session after the call. *)
Definition nc_session_send_rpc (session : option nc_session) (rpc : nc_msg)
    (w : world) : res (Z * option nc_session) :=
  match session with
  | None => Ok (0, None) w
  | Some s =>
      match hostname s with
      | None => Ok (0, Some s) w
      | Some _ =>
          match stamp_rpc s rpc with
          | None => UB
          | Some (s1, msg) =>
              match nc_session_send s1 msg w with
              | Ok _ w1 => Ok (msgid s1, Some s1) w1
              | Failure w1 =>
                  Ok (0, Some (set_msgid s1 ((msgid s1 - 1) mod UINT64_MOD))) w1
              | Hang => Hang
              | UB => UB
              end
          end
      end
  end.

End WithXml.

End Session.
Export Session.

(** ** The wire formats, as the specification words them *)

Module Wire.

(** Version 1.0: the message bytes, then the terminator. *)
Definition frame_v10 (payload : cstring) : list byte := payload ++ NC_V10_END_MSG.

(** Version 1.1, one chunk: [\n#<decimal length>\n] and the bytes. *)
Definition chunk_frame (c : cstring) : list byte :=
  [LF] ++ bs "#" ++ dec_u (Z.of_nat (length c)) ++ [LF] ++ c.

(** Version 1.1, a message: its chunks, then [\n##\n]. *)
Definition frame_v11 (chunks : list cstring) : list byte :=
  concat (map chunk_frame chunks) ++ NC_V11_END_MSG.

(** A chunk of a message: not empty, text (no NUL byte), of a length
    a [size_t] below its largest value holds. *)
Definition chunk_ok (c : cstring) : Prop :=
  c <> [] /\ no_nul c /\ Z.of_nat (length c) < UINT64_MAX.

End Wire.
Export Wire.

(** ** Sessions, messages and streams used to run the code *)

Module Examples.

(** A session over a live SSH channel. *)
Definition session_on (v : Z) (next_id : Z) : nc_session :=
  mk_session (bs "1") next_id 3 (-1) (-1) true true
             (Some (bs "server")) (Some (bs "admin")) v None.

(** A session that lost its transport: no channel, no output
    descriptor. *)
Definition session_off (v : Z) (next_id : Z) : nc_session :=
  mk_session (bs "1") next_id (-1) (-1) (-1) false false
             (Some (bs "server")) (Some (bs "admin")) v None.

(** A session over a pair of file descriptors. *)
Definition session_fd : nc_session :=
  mk_session (bs "1") 1 (-1) 0 1 false false
             (Some (bs "server")) (Some (bs "admin")) NETCONFV11 None.

(** Surroundings whose [malloc] serves up to 1024 bytes, and those
    whose transport refuses what is written. *)
Definition env_small : env := mk_env (fun n => n <=? 1024) true.
Definition env_refusing : env := mk_env (fun _ => true) false.

Definition request (d : xmlDoc) : nc_msg := mk_msg d 0 NC_REPLY_UNKNOWN.

(** [<rpc><get/></rpc>] and [<hello/>]. *)
Definition rpc_get : xmlDoc := mk_doc [elem "rpc" [] [elem "get" [] []]].
Definition hello : xmlDoc := mk_doc [elem "hello" [] []].

(** [<rpc-reply message-id="7"><data/></rpc-reply>]. *)
Definition reply7 : xmlDoc :=
  mk_doc [elem "rpc-reply" [("message-id", "7")%string] [elem "data" [] []]].

(** [<a/>]. *)
Definition doc_a : xmlDoc := mk_doc [elem "a" [] []].

(** [<rpc-reply message-id="7"/>]. *)
Definition reply_empty : xmlDoc :=
  mk_doc [elem "rpc-reply" [("message-id", "7")%string] []].

(** [<!-- note --><rpc-reply message-id="7"><ok/></rpc-reply>]; libxml2
    names a comment node [comment]. *)
Definition reply_after_comment : xmlDoc :=
  mk_doc [Node XML_COMMENT_NODE (bs "comment") [] [] [] (bs " note ");
          elem "rpc-reply" [("message-id", "7")%string] [elem "ok" [] []]].

(** [nc_cpblts_remove] of each of [uris] in turn, results dropped. *)
Definition remove_each (c0 : outcome (option nc_cpblts)) (uris : list string)
  : outcome (option nc_cpblts) :=
  fold_left
    (fun m uri => c <- m ;; r <- nc_cpblts_remove c (Some (bs uri)) ;; Done (snd r))
    uris c0.

End Examples.
Export Examples.

(** ** Callers of the capability set and of the send function *)

Module Callers.

(** A capability set whose storage holds the strings [ss] in its first
    [items] cells, followed by the cells [free], [list_size] cells in
    all. *)
Definition holds (c : nc_cpblts) (ss : list cstring) (free : list slot) : Prop :=
  clist c = Some (map Str ss ++ free) /\
  items c = Z.of_nat (length ss) /\
  list_size c = Z.of_nat (length ss + length free).

(** [n] calls of [nc_cpblts_iter_next] in a row: what each returned
    and the set after the last. *)
Fixpoint iter_next_n (n : nat) (c : option nc_cpblts)
  : outcome (list (option cstring) * option nc_cpblts) :=
  match n with
  | O => Done ([], c)
  | S m =>
      r <- nc_cpblts_iter_next c ;;
      rs <- iter_next_n m (snd r) ;;
      Done (fst r :: fst rs, snd rs)
  end.

(** The cursor of a set moved to [i]. *)
Definition with_iter (c : nc_cpblts) (i : Z) : nc_cpblts :=
  mk_cpblts i (list_size c) (items c) (clist c).

(** What [nc_cpblts_remove] leaves of the strings after the one it
    removes: the last of them first, then the others in order. *)
Definition last_first (post : list cstring) : list cstring :=
  match rev post with
  | [] => []
  | z :: r => z :: rev r
  end.

(** [nc_session_send_rpc] on each of [rpcs] in turn: the ids returned
    and the session after the last call. *)
Fixpoint send_rpcs (dump : xmlDoc -> cstring) (session : option nc_session)
    (rpcs : list nc_msg) (w : world) : res (list Z * option nc_session) :=
  match rpcs with
  | [] => Ok ([], session) w
  | rpc :: more =>
      bind (nc_session_send_rpc dump session rpc w) (fun r w1 =>
      bind (send_rpcs dump (snd r) more w1) (fun rs w2 =>
        Ok (fst r :: fst rs, snd rs) w2))
  end.

End Callers.
Export Callers.

(** * Properties *)

(** ** C strings and decimal numbers *)

Lemma bytes_eqb_eq (a b : list byte) : bytes_eqb a b = true -> a = b.
Proof.
  revert b; induction a as [|x a IH]; intros [|y b]; simpl; try discriminate; auto.
  intros H. apply andb_prop in H as [Hx Hab].
  apply Byte.byte_dec_bl in Hx. f_equal; auto.
Qed.

Lemma bytes_eqb_refl (a : list byte) : bytes_eqb a a = true.
Proof.
  induction a as [|x a IH]; simpl; auto.
  rewrite IH, andb_true_r. now apply Byte.byte_dec_lb.
Qed.

Lemma bytes_eqb_neq (a b : list byte) : a <> b -> bytes_eqb a b = false.
Proof.
  intros H. destruct (bytes_eqb a b) eqn:E; auto.
  apply bytes_eqb_eq in E. contradiction.
Qed.

Lemma is_nul_false (b : byte) : b <> NUL -> is_nul b = false.
Proof.
  intros H. unfold is_nul. destruct (Byte.eqb b NUL) eqn:E; auto.
  apply Byte.byte_dec_bl in E. contradiction.
Qed.

Lemma c_str_no_nul (s : list byte) : no_nul s -> c_str s = s.
Proof.
  induction 1 as [|b s Hb _ IH]; simpl; auto.
  now rewrite (is_nul_false _ Hb), IH.
Qed.

Lemma no_nul_app (a b : list byte) : no_nul a -> no_nul b -> no_nul (a ++ b).
Proof. intros Ha Hb. apply Forall_app. now split. Qed.

Lemma lastn_app {A} (a b : list A) : lastn (length b) (a ++ b) = b.
Proof.
  unfold lastn. rewrite length_app.
  replace (length a + length b - length b)%nat with (length a) by lia.
  rewrite skipn_app, skipn_all, Nat.sub_diag. reflexivity.
Qed.

Lemma digit_byte_digit (d : Z) :
  0 <= d < 10 -> is_digit (digit_byte d) = true /\ digit_val (digit_byte d) = d.
Proof.
  intros H.
  assert (d = 0 \/ d = 1 \/ d = 2 \/ d = 3 \/ d = 4 \/
          d = 5 \/ d = 6 \/ d = 7 \/ d = 8 \/ d = 9) as C by lia.
  repeat (destruct C as [-> | C]; [split; reflexivity|]).
  subst d; split; reflexivity.
Qed.

(** A digit is none of the bytes the framing gives a meaning to. *)
Lemma is_digit_plain (b : byte) :
  is_digit b = true -> b <> NUL /\ b <> LF /\ b <> "#"%byte /\
                       isspace b = false /\ b <> "-"%byte /\ b <> "+"%byte.
Proof.
  intros H. repeat split; try (intros ->; discriminate H).
  unfold is_digit in H. unfold isspace.
  apply andb_prop in H as [H1 H2].
  apply Z.leb_le in H1. apply Z.leb_le in H2.
  destruct (Z.eqb_spec (Z.of_N (to_N b)) 32); [lia|].
  destruct (Z.leb_spec 9 (Z.of_N (to_N b))); destruct (Z.leb_spec (Z.of_N (to_N b)) 13);
    simpl; auto; lia.
Qed.

(** The digits [dec_digits] puts in front of [acc]: they are read back
    by [strtou_digits] as [n], and there are no more of them than [n]
    needs. *)
Lemma dec_digits_spec (fuel : nat) : forall n acc,
  0 <= n < 2 ^ Z.of_nat fuel -> (0 < fuel)%nat ->
  exists ds,
    dec_digits fuel n acc = ds ++ acc /\
    ds <> [] /\
    Forall (fun b => is_digit b = true) ds /\
    (forall a rest, strtou_digits a (ds ++ rest)
                    = strtou_digits (a * 10 ^ Z.of_nat (length ds) + n) rest) /\
    (n = 0 \/ 10 ^ (Z.of_nat (length ds) - 1) <= n).
Proof.
  induction fuel as [|f IH]; intros n acc Hn Hf; [lia|].
  assert (Hd : 0 <= n mod 10 < 10) by (apply Z.mod_pos_bound; lia).
  destruct (digit_byte_digit _ Hd) as [Hdig Hval].
  simpl dec_digits. destruct (Z.ltb_spec n 10) as [Hlt|Hge].
  - exists [digit_byte (n mod 10)]. repeat split; auto; try discriminate.
    + intros a rest. simpl. rewrite Hdig, Hval.
      rewrite Z.mod_small by lia. f_equal; lia.
    + simpl. lia.
  - assert (Hq : 0 <= n / 10 < 2 ^ Z.of_nat f).
    { split; [apply Z.div_pos; lia|].
      rewrite Nat2Z.inj_succ, Z.pow_succ_r in Hn by lia.
      apply Z.div_lt_upper_bound; lia. }
    assert (Hf' : (0 < f)%nat).
    { destruct f; [|lia]. simpl in Hn. lia. }
    destruct (IH (n / 10) (digit_byte (n mod 10) :: acc) Hq Hf')
      as (ds & Heq & Hne & Hall & Hval' & Hlen).
    exists (ds ++ [digit_byte (n mod 10)]). repeat split.
    + rewrite Heq, <- app_assoc. reflexivity.
    + destruct ds; discriminate.
    + apply Forall_app. split; auto.
    + intros a rest. rewrite <- app_assoc. simpl app. rewrite Hval'.
      simpl. rewrite Hdig, Hval. f_equal.
      rewrite length_app. simpl length.
      rewrite Nat2Z.inj_add, Z.pow_add_r by lia.
      change (10 ^ Z.of_nat 1) with 10.
      assert (E : n = 10 * (n / 10) + n mod 10) by (apply Z.div_mod; lia).
      rewrite E at 3. ring.
    + right. rewrite length_app. simpl length.
      rewrite Nat2Z.inj_add.
      replace (Z.of_nat (length ds) + Z.of_nat 1 - 1)
        with (Z.succ (Z.of_nat (length ds) - 1)) by lia.
      assert (0 < Z.of_nat (length ds)) by (destruct ds; [congruence|simpl; lia]).
      rewrite Z.pow_succ_r by lia.
      assert (E : n = 10 * (n / 10) + n mod 10) by (apply Z.div_mod; lia).
      destruct Hlen as [H0|Hlen]; lia.
Qed.

Lemma dec_u_spec (n : Z) :
  0 <= n ->
  dec_u n <> [] /\
  Forall (fun b => is_digit b = true) (dec_u n) /\
  (forall a rest, strtou_digits a (dec_u n ++ rest)
                  = strtou_digits (a * 10 ^ Z.of_nat (length (dec_u n)) + n) rest) /\
  (n = 0 \/ 10 ^ (Z.of_nat (length (dec_u n)) - 1) <= n).
Proof.
  intros Hn. unfold dec_u.
  destruct (dec_digits_spec (S (Z.to_nat (Z.log2 n))) n []) as (ds & Heq & H).
  - split; auto. rewrite Nat2Z.inj_succ, Z2Nat.id by apply Z.log2_nonneg.
    destruct (Z.eq_dec n 0) as [->|]; [reflexivity|].
    apply Z.log2_spec. lia.
  - lia.
  - rewrite app_nil_r in Heq. rewrite Heq. exact H.
Qed.

(** A number below 2^64 has at most 20 decimal digits. *)
Lemma dec_u_length (n : Z) :
  0 <= n < UINT64_MOD -> (length (dec_u n) <= 20)%nat.
Proof.
  intros [Hn Hlt]. destruct (dec_u_spec n Hn) as (_ & _ & _ & [->|Hlen]).
  - vm_compute. lia.
  - destruct (Nat.le_gt_cases (length (dec_u n)) 20) as [|Hgt]; auto.
    exfalso.
    assert (10 ^ 20 <= 10 ^ (Z.of_nat (length (dec_u n)) - 1))
      by (apply Z.pow_le_mono_r; lia).
    unfold UINT64_MOD in Hlt.
    assert (2 ^ 64 < 10 ^ 20) by reflexivity. lia.
Qed.

(** [strtoul] reads back what ["%llu"] printed, whatever follows that
    is not a digit. *)
Lemma strtoull_dec_u (n : Z) (rest : cstring) :
  0 <= n < UINT64_MOD ->
  match rest with b :: _ => is_digit b = false | [] => True end ->
  strtoull (dec_u n ++ rest) = n.
Proof.
  intros Hn Hrest.
  destruct (dec_u_spec n (proj1 Hn)) as (Hne & Hall & Hval & _).
  unfold strtoull.
  destruct (dec_u n) as [|d ds] eqn:E; [congruence|].
  inversion Hall as [|? ? Hd Hds]; subst.
  destruct (is_digit_plain d Hd) as (_ & _ & _ & Hsp & Hm & Hp).
  simpl app. simpl skip_space. rewrite Hsp.
  destruct (Byte.eqb d "-") eqn:E1; [apply Byte.byte_dec_bl in E1; contradiction|].
  destruct (Byte.eqb d "+") eqn:E2; [apply Byte.byte_dec_bl in E2; contradiction|].
  change (d :: ds ++ rest) with ((d :: ds) ++ rest).
  rewrite Hval. simpl Z.mul. simpl Z.add.
  assert (Hr : strtou_digits n rest = n).
  { destruct rest as [|b r]; simpl; auto. now rewrite Hrest. }
  rewrite Hr. unfold UINT64_MAX, UINT64_MOD in *.
  destruct (Z.gtb_spec n (2 ^ 64 - 1)); [lia|reflexivity].
Qed.

(** A string that starts with no white space, sign or digit holds no
    number: [strtoul] gives 0. So does the empty string. *)
Lemma strtoull_no_number (b : byte) (t : cstring) :
  isspace b = false -> b <> "-"%byte -> b <> "+"%byte -> is_digit b = false ->
  strtoull (b :: t) = 0.
Proof.
  intros Hsp Hm Hp Hd. unfold strtoull. simpl skip_space. rewrite Hsp.
  destruct (Byte.eqb b "-") eqn:E1; [apply Byte.byte_dec_bl in E1; contradiction|].
  destruct (Byte.eqb b "+") eqn:E2; [apply Byte.byte_dec_bl in E2; contradiction|].
  simpl. rewrite Hd. reflexivity.
Qed.

(** ** The read primitives *)

Section InEnv.

Variable e : env.

Lemma start_buflen_idem (b : Z) :
  b = 0 \/ 1024 <= b -> start_buflen (start_buflen b) = start_buflen b /\ 1024 <= start_buflen b.
Proof.
  unfold start_buflen. intros [->|H]; simpl; [lia|].
  destruct (Z.eqb_spec b 0); [lia|].
  destruct (Z.eqb_spec b 0); lia.
Qed.

(** [nc_session_read_until] stops at the first place where the bytes
    read so far end with the end tag, as long as the byte after them
    is one of those the call cleared: [pre] is what it reads. *)
Lemma read_until_loop_found (src : source) (tag : cstring) (zeroed buflen : Z) :
  forall (pre buf rest out : list byte),
  pre <> [] ->
  (forall k, (0 < k < length pre)%nat -> ends_with tag (buf ++ firstn k pre) = false) ->
  ends_with tag (buf ++ pre) = true ->
  (length tag <= length (buf ++ pre))%nat ->
  Z.of_nat (length (buf ++ pre)) < zeroed ->
  zeroed <= buflen ->
  read_until_loop e src tag zeroed buflen buf (pre ++ rest) out
  = Ok (c_str (buf ++ pre), Z.of_nat (length (buf ++ pre)))
       (mk_world_in e rest out buflen false).
Proof.
  induction pre as [|b pre IH]; intros buf rest out Hne Hno Hend Htag Hz Hb;
    [congruence|].
  assert (Hstep : forall k, (0 < k < length pre)%nat ->
                  ends_with tag ((buf ++ [b]) ++ firstn k pre) = false).
  { intros k Hk. rewrite <- app_assoc. apply (Hno (S k)). simpl. lia. }
  assert (Hcons : buf ++ b :: pre = (buf ++ [b]) ++ pre)
    by (rewrite <- app_assoc; reflexivity).
  simpl app. simpl read_until_loop.
  destruct pre as [|b' pre'].
  - (* the last byte of [pre] *)
    rewrite length_app in Htag |- *. simpl length in *.
    destruct (Z.ltb_spec (Z.of_nat (length buf + 1)) (Z.of_nat (length tag))); [lia|].
    rewrite Hend.
    rewrite length_app in Hz. simpl length in Hz.
    destruct (Z.ltb_spec (Z.of_nat (length buf + 1)) zeroed); [|lia].
    reflexivity.
  - assert (Hlen : (length (buf ++ [b]) < length (buf ++ b :: b' :: pre'))%nat)
      by (rewrite !length_app; simpl; lia).
    assert (Hnot : ends_with tag (buf ++ [b]) = false).
    { apply (Hno 1%nat). simpl. lia. }
    rewrite Hcons in *.
    destruct (Z.ltb_spec (Z.of_nat (length (buf ++ [b]))) (Z.of_nat (length tag))).
    + apply IH; auto. discriminate.
    + rewrite Hnot.
      destruct (Z.eqb_spec (Z.of_nat (length (buf ++ [b]))) buflen); [lia|].
      apply IH; auto. discriminate.
Qed.

Lemma read_until_found (s : nc_session) (tag pre rest out : list byte) (bl : Z) :
  source_of s <> SrcNone ->
  pre <> [] ->
  (forall k, (0 < k < length pre)%nat -> ends_with tag (firstn k pre) = false) ->
  ends_with tag pre = true ->
  (length tag <= length pre)%nat ->
  Z.of_nat (length pre) < start_buflen bl ->
  nc_session_read_until s tag (mk_world_in e (pre ++ rest) out bl false)
  = Ok (c_str pre, Z.of_nat (length pre)) (mk_world_in e rest out (start_buflen bl) false).
Proof.
  intros Hsrc Hne Hno Hend Htag Hz.
  unfold nc_session_read_until. simpl.
  pose proof (read_until_loop_found (source_of s) tag (start_buflen bl) (start_buflen bl)
                pre [] rest out Hne Hno Hend Htag Hz (Z.le_refl _)) as H.
  simpl in H. destruct (source_of s); auto. congruence.
Qed.

Lemma ends_with_last (tag buf : list byte) : ends_with tag (buf ++ tag) = true.
Proof. unfold ends_with. rewrite lastn_app. apply bytes_eqb_refl. Qed.

(** No list free of a byte ends with that byte. *)
Lemma ends_with_byte_absent (b : byte) (l : list byte) :
  Forall (fun x => x <> b) l -> ends_with [b] l = false.
Proof.
  intros H. unfold ends_with. apply bytes_eqb_neq. intros E.
  assert (In b (lastn (length [b]) l)) by (rewrite E; left; reflexivity).
  unfold lastn in *.
  assert (Hin : In b l).
  { rewrite <- (firstn_skipn (length l - length [b]) l). apply in_or_app. now right. }
  rewrite Forall_forall in H. now apply (H b).
Qed.

(** Reading a line: everything up to the first line feed. *)
Lemma read_until_line (s : nc_session) (line rest out : list byte) (bl : Z) :
  source_of s <> SrcNone ->
  Forall (fun x => x <> LF) line ->
  Z.of_nat (length line) + 1 < start_buflen bl ->
  nc_session_read_until s [LF] (mk_world_in e (line ++ LF :: rest) out bl false)
  = Ok (c_str (line ++ [LF]), Z.of_nat (length line) + 1)
       (mk_world_in e rest out (start_buflen bl) false).
Proof.
  intros Hsrc Hline Hz.
  replace (line ++ LF :: rest) with ((line ++ [LF]) ++ rest)
    by (rewrite <- app_assoc; reflexivity).
  replace (Z.of_nat (length line) + 1) with (Z.of_nat (length (line ++ [LF])))
    by (rewrite length_app; simpl; lia).
  apply read_until_found; auto.
  - destruct line; discriminate.
  - intros k Hk. rewrite length_app in Hk. simpl in Hk.
    apply ends_with_byte_absent.
    rewrite firstn_app.
    replace (k - length line)%nat with 0%nat by lia.
    rewrite firstn_O, app_nil_r.
    rewrite Forall_forall in *. intros x Hx. apply Hline.
    rewrite <- (firstn_skipn k line). apply in_or_app. now left.
  - apply ends_with_last.
  - rewrite length_app. simpl. lia.
  - rewrite length_app. simpl. lia.
Qed.

(** Reading the chunk mark [\n#] when it comes first. *)
Lemma read_until_mark (s : nc_session) (rest out : list byte) (bl : Z) :
  source_of s <> SrcNone ->
  bl = 0 \/ 1024 <= bl ->
  exists r,
    nc_session_read_until s ([LF] ++ bs "#")
      (mk_world_in e (LF :: "#"%byte :: rest) out bl false)
    = Ok r (mk_world_in e rest out (start_buflen bl) false).
Proof.
  intros Hsrc Hbl.
  exists (c_str ([LF] ++ bs "#"), 2).
  apply (read_until_found s ([LF] ++ bs "#") ([LF] ++ bs "#") rest out bl); auto.
  - discriminate.
  - intros k Hk. simpl in Hk. assert (k = 1%nat) as -> by lia. reflexivity.
  - destruct (start_buflen_idem bl Hbl). simpl. lia.
Qed.

Lemma read_len_loop_step (src : source) (n : Z) (buf rest : list byte) (b : byte) (w : world) :
  0 < n ->
  read_len_loop src n buf (b :: rest) w = read_len_loop src (n - 1) (buf ++ [b]) rest w.
Proof.
  intros Hn. simpl. destruct (Z.leb_spec n 0); [lia|reflexivity].
Qed.

Lemma read_len_loop_done (src : source) (buf input : list byte) (w : world) :
  read_len_loop src 0 buf input w
  = Ok (c_str buf, Z.of_nat (length buf))
       (mk_world_in (w_env w) input (w_out w) (rd_buflen w) (rd_buf_freed w)).
Proof. destruct input; reflexivity. Qed.

(** [nc_session_read_len] reads exactly the bytes of the chunk. *)
Lemma read_len_loop_exact (src : source) (w : world) : forall (c buf rest : list byte),
  read_len_loop src (Z.of_nat (length c)) buf (c ++ rest) w
  = Ok (c_str (buf ++ c), Z.of_nat (length (buf ++ c)))
       (mk_world_in (w_env w) rest (w_out w) (rd_buflen w) (rd_buf_freed w)).
Proof.
  induction c as [|b c IH]; intros buf rest.
  - simpl length. simpl app. rewrite app_nil_r. apply read_len_loop_done.
  - simpl app. rewrite read_len_loop_step by (simpl length; lia).
    replace (Z.of_nat (length (b :: c)) - 1) with (Z.of_nat (length c))
      by (simpl length; lia).
    rewrite IH, <- app_assoc. reflexivity.
Qed.

Lemma malloc_size_small (n : Z) :
  0 <= n < UINT64_MAX -> (n + 1) mod UINT64_MOD = n + 1.
Proof. intros H. apply Z.mod_small. unfold UINT64_MAX in H. unfold UINT64_MOD in *. lia. Qed.

Lemma read_len_exact (s : nc_session) (c rest out : list byte) (bl : Z) (fr : bool) :
  source_of s <> SrcNone ->
  Z.of_nat (length c) < UINT64_MAX ->
  served e c ->
  nc_session_read_len s (Z.of_nat (length c)) (mk_world_in e (c ++ rest) out bl fr)
  = Ok (c_str c, Z.of_nat (length c)) (mk_world_in e rest out bl fr).
Proof.
  intros Hsrc Hlen Hserved. unfold nc_session_read_len. cbn [w_env].
  rewrite malloc_size_small by lia. rewrite Hserved. cbn [negb].
  destruct (Z.eqb_spec (Z.of_nat (length c)) UINT64_MAX); [lia|].
  pose proof (read_len_loop_exact (source_of s) (mk_world_in e (c ++ rest) out bl fr)
                c [] rest) as H.
  simpl in H. destruct (source_of s); auto. congruence.
Qed.

(** ** Version 1.1 framing *)

Lemma receive_v11_loop_S (f : nat) (s : nc_session) (text : option cstring) (w : world) :
  receive_v11_loop (S f) s text w =
  bind (nc_session_read_until s ([LF] ++ bs "#") w) (fun _ w1 =>
  bind (nc_session_read_until s [LF] w1) (fun r w2 =>
    let chunk := fst r in
    if streq chunk (bs "#" ++ [LF]) then Ok text w2
    else
      let chunk_length := strtoul chunk in
      if chunk_length =? 0 then Failure w2
      else
        bind (nc_session_read_len s chunk_length w2) (fun r3 w3 =>
          receive_v11_loop f s (append_chunk text (fst r3)) w3))).
Proof. reflexivity. Qed.

Lemma digits_no_lf (ds : list byte) :
  Forall (fun b => is_digit b = true) ds -> Forall (fun x => x <> LF) ds.
Proof.
  intros H. eapply Forall_impl; [|exact H].
  intros b Hb. now destruct (is_digit_plain b Hb) as (_ & ? & _).
Qed.

Lemma digits_no_nul (ds : list byte) :
  Forall (fun b => is_digit b = true) ds -> no_nul ds.
Proof.
  intros H. eapply Forall_impl; [|exact H].
  intros b Hb. now destruct (is_digit_plain b Hb) as (? & _).
Qed.

(** One round of the loop on a well-formed chunk: the chunk is
    appended to the text and the loop goes on with what follows. *)
Lemma receive_v11_loop_chunk (f : nat) (s : nc_session) (text : option cstring)
    (c rest out : list byte) (bl : Z) :
  source_of s <> SrcNone ->
  bl = 0 \/ 1024 <= bl ->
  chunk_ok c ->
  served e c ->
  receive_v11_loop (S f) s text (mk_world_in e (chunk_frame c ++ rest) out bl false)
  = receive_v11_loop f s (append_chunk text c)
      (mk_world_in e rest out (start_buflen bl) false).
Proof.
  intros Hsrc Hbl (Hne & Hnul & Hlen) Hserved.
  destruct (start_buflen_idem bl Hbl) as [Hidem Hbig].
  unfold chunk_frame.
  assert (Hpos : (0 < length c)%nat) by (destruct c; [congruence|simpl; lia]).
  set (n := Z.of_nat (length c)) in *.
  assert (Hn : 0 < n < UINT64_MOD) by (unfold UINT64_MAX, UINT64_MOD in *; lia).
  destruct (dec_u_spec n (ltac:(lia))) as (Hdne & Hdig & _ & _).
  pose proof (dec_u_length n ltac:(lia)) as Hdlen.
  change (([LF] ++ bs "#" ++ dec_u n ++ [LF] ++ c) ++ rest)
    with (LF :: "#"%byte :: (dec_u n ++ LF :: c) ++ rest).
  rewrite receive_v11_loop_S.
  destruct (read_until_mark s ((dec_u n ++ LF :: c) ++ rest) out bl Hsrc Hbl) as [r ->].
  unfold bind at 1.
  rewrite <- app_assoc. change ((LF :: c) ++ rest) with (LF :: c ++ rest).
  rewrite read_until_line; auto using digits_no_lf; [|lia].
  unfold bind at 1. cbv zeta. cbn [fst].
  rewrite c_str_no_nul
    by (apply no_nul_app; [now apply digits_no_nul | repeat constructor; discriminate]).
  replace (streq (dec_u n ++ [LF]) (bs "#" ++ [LF])) with false.
  2:{ symmetry. apply bytes_eqb_neq.
      destruct (dec_u n) as [|d ds]; [congruence|].
      inversion Hdig as [|? ? Hd _]; subst.
      destruct (is_digit_plain d Hd) as (_ & _ & Hh & _).
      simpl. intros E. injection E as E _. contradiction. }
  unfold strtoul. rewrite strtoull_dec_u by (auto; lia).
  destruct (Z.eqb_spec n 0); [lia|].
  rewrite Hidem. subst n.
  rewrite read_len_exact by auto.
  unfold bind. unfold fst. rewrite c_str_no_nul by auto. reflexivity.
Qed.

(** The round that meets the terminator ends the loop. *)
Lemma receive_v11_loop_end (f : nat) (s : nc_session) (text : option cstring)
    (rest out : list byte) (bl : Z) :
  source_of s <> SrcNone ->
  bl = 0 \/ 1024 <= bl ->
  receive_v11_loop (S f) s text (mk_world_in e (NC_V11_END_MSG ++ rest) out bl false)
  = Ok text (mk_world_in e rest out (start_buflen bl) false).
Proof.
  intros Hsrc Hbl.
  destruct (start_buflen_idem bl Hbl) as [Hidem Hbig].
  change (NC_V11_END_MSG ++ rest) with (LF :: "#"%byte :: bs "#" ++ LF :: rest).
  rewrite receive_v11_loop_S.
  destruct (read_until_mark s (bs "#" ++ LF :: rest) out bl Hsrc Hbl) as [r ->].
  unfold bind at 1.
  rewrite (read_until_line s (bs "#") rest out (start_buflen bl)); auto.
  - unfold bind. simpl. now rewrite Hidem.
  - repeat constructor; discriminate.
  - simpl. lia.
Qed.

Lemma append_chunks_some (cs : list cstring) : forall t,
  fold_left append_chunk cs (Some t) = Some (t ++ concat cs).
Proof.
  induction cs as [|c cs IH]; intros t; simpl.
  - now rewrite app_nil_r.
  - now rewrite IH, app_assoc.
Qed.

Lemma frame_v11_cons (c : cstring) (cs : list cstring) (rest : list byte) :
  frame_v11 (c :: cs) ++ rest = chunk_frame c ++ (frame_v11 cs ++ rest).
Proof.
  unfold frame_v11. cbn [map concat]. now rewrite <- !app_assoc.
Qed.

(** The loop on a whole framed message. *)
Lemma receive_v11_loop_chunks (s : nc_session) (rest out : list byte) :
  source_of s <> SrcNone ->
  forall (chunks : list cstring) (fuel : nat) (text : option cstring) (bl : Z),
  bl = 0 \/ 1024 <= bl ->
  Forall chunk_ok chunks ->
  Forall (served e) chunks ->
  (length chunks < fuel)%nat ->
  receive_v11_loop fuel s text (mk_world_in e (frame_v11 chunks ++ rest) out bl false)
  = Ok (fold_left append_chunk chunks text) (mk_world_in e rest out (start_buflen bl) false).
Proof.
  intros Hsrc. induction chunks as [|c cs IH]; intros fuel text bl Hbl Hok Hsv Hfuel.
  - destruct fuel as [|f]; [simpl in Hfuel; lia|].
    unfold frame_v11. simpl concat. simpl app.
    now apply receive_v11_loop_end.
  - destruct fuel as [|f]; [simpl in Hfuel; lia|].
    inversion Hok as [|? ? Hc Hcs]; subst.
    inversion Hsv as [|? ? Hs1 Hs2]; subst.
    destruct (start_buflen_idem bl Hbl) as [Hidem Hbig].
    rewrite frame_v11_cons, receive_v11_loop_chunk; auto.
    rewrite IH; auto; [|simpl in Hfuel; lia].
    now rewrite Hidem.
Qed.

Lemma frame_v11_length (chunks : list cstring) :
  (length chunks < length (frame_v11 chunks))%nat.
Proof.
  unfold frame_v11. rewrite length_app.
  assert (length chunks <= length (concat (map chunk_frame chunks)))%nat.
  { induction chunks as [|c cs IH]; simpl; [lia|].
    rewrite length_app. simpl. lia. }
  simpl. lia.
Qed.




Lemma chunks_length (chunks : list cstring) (tail : list byte) :
  (length chunks < length (concat (map chunk_frame chunks) ++ LF :: tail))%nat.
Proof.
  rewrite length_app.
  assert (length chunks <= length (concat (map chunk_frame chunks)))%nat.
  { induction chunks as [|c cs IH]; simpl; [lia|].
    rewrite length_app. simpl. lia. }
  simpl. lia.
Qed.

End InEnv.

(** Where every request is served, every chunk is. *)
Lemma served_env_ok (chunks : list cstring) : Forall (served env_ok) chunks.
Proof. apply Forall_forall. intros c _. reflexivity. Qed.

(** ** The fuel of [receive_v11_loop] is never used up *)

Lemma read_until_loop_consumes (e : env) (src : source) (tag : cstring) (zeroed : Z) :
  forall (input buf out : list byte) (buflen : Z) r w,
  read_until_loop e src tag zeroed buflen buf input out = Ok r w ->
  (length (w_in w) < length input)%nat.
Proof.
  induction input as [|b rest IH]; intros buf out buflen r w H.
  - simpl in H. destruct src; discriminate.
  - simpl in H.
    destruct (Z.of_nat (length (buf ++ [b])) <? Z.of_nat (length tag)).
    + apply IH in H. simpl. lia.
    + destruct (ends_with tag (buf ++ [b])).
      * destruct (Z.of_nat (length (buf ++ [b])) <? zeroed); [|discriminate].
        injection H as _ <-. simpl. lia.
      * apply IH in H. simpl. lia.
Qed.

Lemma read_until_consumes (s : nc_session) (tag : cstring) (w : world) r w1 :
  nc_session_read_until s tag w = Ok r w1 ->
  (length (w_in w1) < length (w_in w))%nat.
Proof.
  unfold nc_session_read_until. destruct (rd_buf_freed w); [discriminate|].
  destruct (source_of s); try discriminate; apply read_until_loop_consumes.
Qed.

Lemma read_len_loop_consumes (src : source) (w : world) :
  forall (input buf : list byte) (n : Z) r w1,
  read_len_loop src n buf input w = Ok r w1 ->
  (length (w_in w1) <= length input)%nat.
Proof.
  induction input as [|b rest IH]; intros buf n r w1 H; simpl in H.
  - destruct (n <=? 0); [injection H as _ <-; simpl; lia|].
    destruct src; discriminate.
  - destruct (n <=? 0); [injection H as _ <-; simpl; lia|].
    apply IH in H. simpl. lia.
Qed.

Lemma read_len_consumes (s : nc_session) (n : Z) (w : world) r w1 :
  nc_session_read_len s n w = Ok r w1 ->
  (length (w_in w1) <= length (w_in w))%nat.
Proof.
  unfold nc_session_read_len.
  destruct (negb (malloc_serves (w_env w) ((n + 1) mod UINT64_MOD))); [discriminate|].
  destruct (n =? UINT64_MAX); [discriminate|].
  destruct (source_of s); try apply read_len_loop_consumes.
  destruct (0 <? n); [discriminate|]. intros H. injection H as _ <-. lia.
Qed.

(** Any two amounts of fuel above the length of the input give the
    same result: the [Hang] of [receive_v11_loop] at no fuel is never
    the result of [receive_v11]. *)
Lemma receive_v11_loop_fuel (s : nc_session) : forall (f1 f2 : nat) text w,
  (length (w_in w) < f1)%nat -> (length (w_in w) < f2)%nat ->
  receive_v11_loop f1 s text w = receive_v11_loop f2 s text w.
Proof.
  induction f1 as [|f1 IH]; intros f2 text w H1 H2; [lia|].
  destruct f2 as [|f2]; [lia|].
  rewrite !receive_v11_loop_S.
  destruct (nc_session_read_until s ([LF] ++ bs "#") w) as [r1 w1| | |] eqn:E1;
    cbn [bind]; auto.
  apply read_until_consumes in E1.
  destruct (nc_session_read_until s [LF] w1) as [r2 w2| | |] eqn:E2;
    cbn [bind]; auto.
  apply read_until_consumes in E2. cbv zeta.
  destruct (streq (fst r2) (bs "#" ++ [LF])); auto.
  destruct (strtoul (fst r2) =? 0); auto.
  destruct (nc_session_read_len s (strtoul (fst r2)) w2) as [r3 w3| | |] eqn:E3;
    cbn [bind]; auto.
  apply read_len_consumes in E3.
  apply IH; lia.
Qed.

(** ** Message ids of outgoing requests *)

(** A counter below 10^15 prints in at most 15 digits, which with the
    NUL fit [msg_id_str]. *)
Lemma dec_u_fits (n : Z) :
  0 <= n < 10 ^ 15 -> (Z.of_nat (length (dec_u n)) + 1 <=? 16) = true.
Proof.
  intros [Hn Hlt]. apply Z.leb_le.
  destruct (dec_u_spec n Hn) as (_ & _ & _ & [->|Hlen]); [vm_compute; discriminate|].
  destruct (Z.le_gt_cases (Z.of_nat (length (dec_u n))) 15) as [|Hgt]; [lia|].
  exfalso.
  assert (10 ^ 15 <= 10 ^ (Z.of_nat (length (dec_u n)) - 1))
    by (apply Z.pow_le_mono_r; lia).
  lia.
Qed.

Lemma assoc_set_assoc (k v : cstring) (l : list (cstring * cstring)) :
  assoc k (set_assoc k v l) = Some v.
Proof.
  induction l as [|[k' v'] l IH]; simpl.
  - unfold streq. now rewrite bytes_eqb_refl.
  - destruct (streq k' k) eqn:E; simpl; rewrite E; auto.
Qed.

(** What [nc_session_send_rpc] does to an [<rpc>] before sending it. *)
Lemma stamp_rpc_rpc (s : nc_session) (rpc : nc_msg) (root : xmlNode)
    (others : list xmlNode) :
  doc_children (msg_doc rpc) = root :: others ->
  node_name root = bs "rpc" ->
  0 <= msgid s < 10 ^ 15 ->
  stamp_rpc s rpc
  = Some (set_msgid s (msgid s + 1),
          mk_msg (mk_doc (xmlNewNs (xmlSetProp root (bs "message-id") (dec_u (msgid s)))
                                   (if version s =? NETCONFV10
                                    then NC_NS_BASE10 else NC_NS_BASE11)
                          :: others))
                 (msg_msgid rpc) (msg_type rpc)).
Proof.
  intros Hdoc Hname Hid.
  unfold stamp_rpc, nc_msg_dup. rewrite Hdoc, Hname.
  unfold streq. rewrite bytes_eqb_refl, dec_u_fits by exact Hid.
  rewrite Z.mod_small; [reflexivity|].
  unfold UINT64_MOD. assert (10 ^ 15 < 2 ^ 64) by reflexivity. lia.
Qed.

(** With a channel or an output descriptor that takes the bytes,
    [nc_session_send] succeeds; the surroundings stay as they are. *)
Lemma send_succeeds (dump : xmlDoc -> cstring) (s : nc_session) (msg : nc_msg) (w : world) :
  ssh_channel s = true \/ fd_output s <> -1 ->
  write_taken (w_env w) = true ->
  exists w1, nc_session_send dump s msg w = Ok tt w1 /\ w_env w1 = w_env w.
Proof.
  intros Hout Hw. unfold nc_session_send.
  replace (negb (ssh_channel s) && (fd_output s =? -1)) with false.
  - unfold nc_write. rewrite Hw.
    destruct (version s =? NETCONFV11); cbn [bind written w_env]; rewrite Hw;
      cbn [bind written w_env]; rewrite ?Hw; eexists; split; reflexivity.
  - destruct Hout as [->|Hfd]; [reflexivity|].
    destruct (Z.eqb_spec (fd_output s) (-1)); [contradiction|].
    now rewrite andb_false_r.
Qed.

(** Every successful send of an [<rpc>] stamps the counter and returns
    the counter plus one. *)
Lemma send_rpc_returns_successor (dump : xmlDoc -> cstring) (s : nc_session)
    (rpc : nc_msg) (w : world) (root : xmlNode) (others : list xmlNode) :
  hostname s <> None ->
  ssh_channel s = true \/ fd_output s <> -1 ->
  write_taken (w_env w) = true ->
  doc_children (msg_doc rpc) = root :: others ->
  node_type root = XML_ELEMENT_NODE ->
  node_name root = bs "rpc" ->
  0 <= msgid s < 10 ^ 15 ->
  exists s1 msg w1 sent,
    stamp_rpc s rpc = Some (s1, msg) /\
    doc_children (msg_doc msg) = sent :: others /\
    xmlGetProp (Some sent) (bs "message-id") = Some (dec_u (msgid s)) /\
    nc_session_send_rpc dump (Some s) rpc w = Ok (msgid s + 1, Some s1) w1.
Proof.
  intros Hhost Hout Hw Hdoc Htype Hname Hid.
  pose proof (stamp_rpc_rpc s rpc root others Hdoc Hname Hid) as Hstamp.
  unfold nc_session_send_rpc.
  destruct (hostname s) as [h|] eqn:Eh; [|congruence].
  rewrite Hstamp.
  set (s1 := set_msgid s (msgid s + 1)).
  set (msg := mk_msg _ _ _).
  destruct (send_succeeds dump s1 msg w Hout Hw) as (w1 & -> & _).
  exists s1, msg, w1. eexists. repeat split.
  destruct root as [ty name props ns kids content]. simpl in Htype. subst ty.
  simpl. destruct (has_default_ns ns); simpl; apply assoc_set_assoc.
Qed.

(** ** Replies *)

(** A message whose text does not parse never makes
    [nc_session_recv_reply] return: the code goes on with the freed
    message. *)
Lemma recv_reply_parse_failure (parse : cstring -> option xmlDoc) (s : nc_session)
    (w w1 : world) (text : cstring) :
  hostname s <> None ->
  receive_text s w = Ok (Some text) w1 ->
  parse text = None ->
  nc_session_recv_reply parse (Some s) w = UB.
Proof.
  intros Hhost Htext Hparse.
  unfold nc_session_recv_reply, nc_session_receive.
  destruct (hostname s); [|congruence].
  rewrite Htext. unfold bind, msg_of_text. now rewrite Hparse.
Qed.

(** A send that fails for want of a transport takes one off the
    counter, which only an [<rpc>] had raised. *)
Lemma send_rpc_failure_decrements (dump : xmlDoc -> cstring) (s : nc_session)
    (rpc : nc_msg) (w : world) (root : xmlNode) (others : list xmlNode) :
  hostname s <> None ->
  ssh_channel s = false ->
  fd_output s = -1 ->
  doc_children (msg_doc rpc) = root :: others ->
  node_name root <> bs "rpc" ->
  nc_session_send_rpc dump (Some s) rpc w
  = Ok (0, Some (set_msgid s ((msgid s - 1) mod UINT64_MOD))) w.
Proof.
  intros Hhost Hch Hfd Hdoc Hname.
  unfold nc_session_send_rpc, stamp_rpc, nc_msg_dup.
  destruct (hostname s); [|congruence].
  rewrite Hdoc. unfold streq. rewrite (bytes_eqb_neq _ _ Hname).
  unfold nc_session_send. rewrite Hch, Hfd. reflexivity.
Qed.

(** What [nc_session_recv_reply] returns for a message received and
    parsed whose root, [doc->children], is not [<rpc-reply>] or has a
    first child, [doc->children->children]: the message with its
    class and the id read from the [message-id] attribute of the
    root. *)
Lemma recv_reply_classifies (parse : cstring -> option xmlDoc) (s : nc_session)
    (w w1 : world) (text : cstring) (doc : xmlDoc) (root : xmlNode)
    (others : list xmlNode) :
  hostname s <> None ->
  receive_text s w = Ok (Some text) w1 ->
  parse text = Some doc ->
  doc_children doc = root :: others ->
  let id := match xmlGetProp (Some root) (bs "message-id") with
            | Some v => strtoull v
            | None => 0
            end in
  let returns t :=
    nc_session_recv_reply parse (Some s) w = Ok (id, Some (mk_msg doc id t)) w1 in
  (forall child rest,
     node_name root = bs "rpc-reply" -> node_children root = child :: rest ->
     (node_name child = bs "ok" -> returns NC_REPLY_OK) /\
     (node_name child = bs "rpc-error" -> returns NC_REPLY_ERROR) /\
     (node_name child = bs "data" -> returns NC_REPLY_DATA) /\
     (node_name child <> bs "ok" -> node_name child <> bs "rpc-error" ->
      node_name child <> bs "data" -> returns NC_REPLY_UNKNOWN)) /\
  (node_name root <> bs "rpc-reply" -> returns NC_REPLY_UNKNOWN) /\
  (xmlGetProp (Some root) (bs "message-id") = None -> id = 0) /\
  (forall n, 0 <= n < UINT64_MOD ->
     xmlGetProp (Some root) (bs "message-id") = Some (dec_u n) -> id = n).
Proof.
  intros Hhost Htext Hparse Hdoc id returns.
  assert (Hrun : nc_session_recv_reply parse (Some s) w
                 = match msg_of_text parse (Some text) w1 with
                   | Ok m w2 => Ok (nc_reply_get_msgid m, Some m) w2
                   | Failure w2 => Ok (0, None) w2
                   | Hang => Hang
                   | UB => UB
                   end).
  { unfold nc_session_recv_reply, nc_session_receive.
    destruct (hostname s); [|congruence]. now rewrite Htext. }
  unfold msg_of_text in Hrun. rewrite Hparse, Hdoc in Hrun. fold id in Hrun.
  subst returns. cbv beta. rewrite Hrun. clear Hrun.
  split; [|split; [|split]].
  - intros child rest Hroot Hkids. unfold streq. rewrite Hroot, Hkids.
    rewrite bytes_eqb_refl. repeat split.
    + now intros ->.
    + now intros ->.
    + now intros ->.
    + intros N1 N2 N3.
      now rewrite (bytes_eqb_neq _ _ N1), (bytes_eqb_neq _ _ N2), (bytes_eqb_neq _ _ N3).
  - intros Hroot. unfold streq. now rewrite (bytes_eqb_neq _ _ Hroot).
  - subst id. now intros ->.
  - subst id. intros n Hn ->. rewrite <- (app_nil_r (dec_u n)).
    now apply strtoull_dec_u.
Qed.

(** The multi-chunk reply of the specification: id 7, class DATA. *)
Lemma recv_reply_classifies_example :
  nc_session_recv_reply (read_corpus [reply7]) (Some (session_on NETCONFV11 1))
    (world0 (frame_v11 [firstn 20 (dump_doc reply7); skipn 20 (dump_doc reply7)]))
  = Ok (7, Some (mk_msg reply7 7 NC_REPLY_DATA)) (mk_world [] [] 1024 false).
Proof.
  assert (H1 : hostname (session_on NETCONFV11 1) <> None) by discriminate.
  assert (H2 : receive_text (session_on NETCONFV11 1)
                 (world0 (frame_v11 [firstn 20 (dump_doc reply7);
                                     skipn 20 (dump_doc reply7)]))
               = Ok (Some (dump_doc reply7)) (mk_world [] [] 1024 false))
    by (vm_compute; reflexivity).
  assert (H3 : read_corpus [reply7] (dump_doc reply7) = Some reply7)
    by (vm_compute; reflexivity).
  assert (H4 : doc_children reply7
               = [elem "rpc-reply" [("message-id", "7")%string] [elem "data" [] []]])
    by reflexivity.
  destruct (recv_reply_classifies _ _ _ _ _ _ _ _ H1 H2 H3 H4) as [Hclass _].
  destruct (Hclass (elem "data" [] []) [] eq_refl eq_refl) as (_ & _ & Hdata & _).
  exact (Hdata eq_refl).
Qed.

(** ** Version 1.0 framing *)

(** On a message that fits the cleared buffer and holds the terminator
    only at its end, the version 1.0 decoder reads the whole frame and
    returns the payload without its last byte. *)
Lemma receive_v10_drops_last (e : env) (s : nc_session) (payload rest out : list byte)
    (bl : Z) :
  version s = NETCONFV10 ->
  source_of s <> SrcNone ->
  bl = 0 \/ 1024 <= bl ->
  payload <> [] ->
  no_nul payload ->
  (forall k, (0 < k < length (frame_v10 payload))%nat ->
             ends_with NC_V10_END_MSG (firstn k (frame_v10 payload)) = false) ->
  (length payload < 1000)%nat ->
  receive_text s (mk_world_in e (frame_v10 payload ++ rest) out bl false)
  = Ok (Some (removelast payload)) (mk_world_in e rest out (start_buflen bl) false).
Proof.
  intros Hv Hsrc Hbl Hne Hnul Hno Hlen.
  destruct (start_buflen_idem bl Hbl) as [_ Hbig].
  assert (Hflen : length (frame_v10 payload) = (length payload + 6)%nat)
    by (unfold frame_v10; rewrite length_app; reflexivity).
  unfold receive_text, receive_v10. rewrite Hv. simpl (NETCONFV10 =? NETCONFV10).
  rewrite (read_until_found e s NC_V10_END_MSG (frame_v10 payload) rest out bl); auto.
  - unfold bind.
    rewrite c_str_no_nul
      by (apply no_nul_app; auto; repeat constructor; discriminate).
    rewrite Hflen.
    assert (Hpos : (0 < length payload)%nat) by (destruct payload; [congruence|simpl; lia]).
    replace ((Z.of_nat (length payload + 6) - 1 - Z.of_nat (length NC_V10_END_MSG))
               mod UINT64_MOD)
      with (Z.of_nat (pred (length payload))).
    2:{ symmetry. change (Z.of_nat (length NC_V10_END_MSG)) with 6.
        rewrite Z.mod_small; unfold UINT64_MOD; lia. }
    destruct (Z.leb_spec (Z.of_nat (pred (length payload))) (Z.of_nat (length payload + 6)));
      [|lia].
    rewrite Nat2Z.id. unfold frame_v10.
    rewrite firstn_app.
    replace (pred (length payload) - length payload)%nat with 0%nat by lia.
    rewrite firstn_O, app_nil_r, <- removelast_firstn_len. reflexivity.
  - unfold frame_v10. destruct payload; discriminate.
  - apply ends_with_last.
  - rewrite Hflen. simpl. lia.
  - rewrite Hflen. lia.
Qed.

(** * The claims of the specification *)

(** C1. The specification says a successful [nc_session_send_rpc]
    returns the message id it stamped, 1 for the first send. The code
    returns [session->msgid] after the post-increment: the first
    [<rpc>] of a session whose counter is 1 goes out with
    [message-id="1"] and the call returns 2. *)
Theorem send_rpc_first_id_returns_two :
  nc_session_send_rpc dump_doc (Some (session_on NETCONFV10 1)) (request rpc_get) (world0 [])
  = Ok (2, Some (session_on NETCONFV10 2))
       (mk_world []
          (bs "<rpc message-id=" ++ [DQUOTE] ++ bs "1" ++ [DQUOTE] ++
           bs " xmlns=" ++ [DQUOTE] ++ NC_NS_BASE10 ++ [DQUOTE] ++
           bs "><get/></rpc>" ++ NC_V10_END_MSG)
          0 false).
Proof. vm_compute. reflexivity. Qed.

(** C2. The specification says the version 1.0 decoder returns the
    payload the encoder framed, no byte lost. The code writes the NUL
    one byte too early: [<a/>] is sent as [<a/>]]>]]>] and received as
    [<a/]. *)
Theorem v10_round_trip_loses_last_byte :
  nc_session_send dump_doc (session_on NETCONFV10 1) (request doc_a) (world0 [])
  = Ok tt (mk_world [] (frame_v10 (bs "<a/>")) 0 false) /\
  receive_text (session_on NETCONFV10 1) (world0 (frame_v10 (bs "<a/>")))
  = Ok (Some (bs "<a/")) (mk_world [] [] 1024 false).
Proof. split; vm_compute; reflexivity. Qed.

(** C3. The specification says a failed [nc_session_send_rpc] leaves
    the counter where it was, whatever the top-level element. The code
    takes one off on every failure but adds one only for an [<rpc>]: a
    failed [<hello>] moves the counter from 5 to 4, a failed [<rpc>]
    leaves it at 5. *)
Theorem failed_send_of_hello_lowers_counter :
  nc_session_send_rpc dump_doc (Some (session_off NETCONFV10 5)) (request hello) (world0 [])
  = Ok (0, Some (session_off NETCONFV10 4)) (world0 []) /\
  nc_session_send_rpc dump_doc (Some (session_off NETCONFV10 5)) (request rpc_get) (world0 [])
  = Ok (0, Some (session_off NETCONFV10 5)) (world0 []).
Proof. split; vm_compute; reflexivity. Qed.

(** C4. The specification says [items <= list_size] holds after every
    sequence of capability-set operations. [nc_cpblts_remove] takes
    one off [list_size] and leaves [items]: after five removals from
    the default set, [items] is 6 and [list_size] is 5, and
    [nc_cpblts_add] refuses the set. *)
Theorem removals_break_items_le_capacity :
  exists c,
    remove_each nc_session_get_cpblts_default
      ["urn:ietf:params:netconf:base:1.0";
       "urn:ietf:params:netconf:base:1.0";
       "urn:ietf:params:netconf:base:1.1";
       "urn:ietf:params:netconf:capability:writable-running:1.0";
       "urn:ietf:params:netconf:capability:candidate:1.0"]%string
    = Done (Some c) /\
    items c = 6 /\ list_size c = 5 /\ ~ items c <= list_size c /\
    nc_cpblts_add (Some c) (Some (bs "urn:x")) = Done (EXIT_FAILURE, Some c).
Proof.
  eexists. split; [vm_compute; reflexivity|].
  repeat split; try reflexivity. simpl. lia.
Qed.

(** C5. The specification says the entry at index [items] is NULL
    after every capability-set operation. [nc_cpblts_add] writes the
    NULL at [items + 1] after it has counted the new string: after the
    first add to an empty set the entry at index 1 was never written,
    the NULL is at index 2. *)
Theorem add_leaves_entry_at_items_unwritten :
  exists c l,
    (c0 <- nc_cpblts_new None ;; nc_cpblts_add (Some c0) (Some (bs "urn:x")))
    = Done (EXIT_SUCCESS, Some c) /\
    items c = 1 /\ clist c = Some l /\
    load l (items c) = Done Undef /\ load l (items c + 1) = Done Null.
Proof.
  do 2 eexists. split; [vm_compute; reflexivity|].
  repeat split; reflexivity.
Qed.

(** C6. The specification says a message that does not parse as XML
    makes [recv_reply] return the failure value. The branch for
    [retval->doc == NULL] frees the message and the text and does not
    return: the code goes on to free the text again and to read the
    freed message, so the call has no defined result. *)
Theorem recv_reply_unparsable_has_no_result :
  receive_text (session_on NETCONFV11 1) (world0 (frame_v11 [bs "hello"; bs " world"]))
  = Ok (Some (bs "hello world")) (mk_world [] [] 1024 false) /\
  read_corpus [reply7] (bs "hello world") = None /\
  nc_session_recv_reply (read_corpus [reply7]) (Some (session_on NETCONFV11 1))
    (world0 (frame_v11 [bs "hello"; bs " world"]))
  = UB.
Proof. repeat split; vm_compute; reflexivity. Qed.




(** C8, as the specification states it, fails on a payload that holds
    a NUL byte: the three bytes [a], NUL, [b] sent as one chunk come
    back as [a], since the chunk is appended with [strcat]. *)
Lemma v11_decoder_cuts_chunk_at_nul :
  receive_text (session_on NETCONFV11 1)
    (world0 (frame_v11 [bs "a" ++ [NUL] ++ bs "b"]))
  = Ok (Some (bs "a")) (mk_world [] [] 1024 false).
Proof. vm_compute. reflexivity. Qed.

(** C8, amended. For every non-empty payload without NUL bytes and
    every way of splitting it into one or more chunks, each after its
    own [\n#<len>\n] header and the whole followed by [\n##\n], the
    version 1.1 decoder returns the bytes of the chunks in order, and
    [nc_session_receive] goes on with exactly that text. *)
Theorem v11_decoder_reassembles_chunks (s : nc_session) (chunks : list cstring)
    (rest out : list byte) (bl : Z) :
  version s = NETCONFV11 ->
  source_of s <> SrcNone ->
  bl = 0 \/ 1024 <= bl ->
  chunks <> [] ->
  Forall chunk_ok chunks ->
  receive_text s (mk_world (frame_v11 chunks ++ rest) out bl false)
  = Ok (Some (concat chunks)) (mk_world rest out (start_buflen bl) false) /\
  forall parse, hostname s <> None ->
    nc_session_receive parse (Some s) (mk_world (frame_v11 chunks ++ rest) out bl false)
    = msg_of_text parse (Some (concat chunks)) (mk_world rest out (start_buflen bl) false).
Proof.
  intros Hv Hsrc Hbl Hne Hok.
  assert (H : receive_text s (mk_world (frame_v11 chunks ++ rest) out bl false)
              = Ok (Some (concat chunks)) (mk_world rest out (start_buflen bl) false)).
  { unfold receive_text. rewrite Hv. simpl (NETCONFV11 =? NETCONFV10).
    simpl (NETCONFV11 =? NETCONFV11). unfold receive_v11, mk_world.
    rewrite receive_v11_loop_chunks; auto using served_env_ok.
    - destruct chunks as [|c cs]; [congruence|].
      simpl fold_left. now rewrite append_chunks_some.
    - cbn [w_in]. rewrite length_app. pose proof (frame_v11_length chunks). lia. }
  split; [exact H|].
  intros parse Hhost. unfold nc_session_receive.
  destruct (hostname s); [|congruence].
  now rewrite H.
Qed.

Lemma v11_decoder_reassembles_chunks_witness :
  receive_text (session_on NETCONFV11 1)
    (mk_world (frame_v11 [bs "hello"; bs " world"] ++ bs "next") [] 0 false)
  = Ok (Some (concat [bs "hello"; bs " world"]))
       (mk_world (bs "next") [] (start_buflen 0) false) /\
  forall parse, hostname (session_on NETCONFV11 1) <> None ->
    nc_session_receive parse (Some (session_on NETCONFV11 1))
      (mk_world (frame_v11 [bs "hello"; bs " world"] ++ bs "next") [] 0 false)
    = msg_of_text parse (Some (concat [bs "hello"; bs " world"]))
        (mk_world (bs "next") [] (start_buflen 0) false).
Proof.
  apply v11_decoder_reassembles_chunks.
  - reflexivity.
  - discriminate.
  - left; reflexivity.
  - discriminate.
  - repeat constructor; discriminate.
Defined.

(** C9. The specification says every message that was received and
    parsed is classified by its root and the first child of the root,
    and that the id returned is the [message-id] attribute of the
    root. The code reads [doc->children->children->name] without
    testing that the root has a child: on
    [<rpc-reply message-id="7"/>], which is received and parsed, the
    call is undefined. And what the code takes for the root is the
    first node of the document: when a comment stands before
    [<rpc-reply message-id="7"><ok/></rpc-reply>] the class is UNKNOWN
    and the id 0. *)
Theorem recv_reply_misses_parsed_replies :
  (receive_text (session_on NETCONFV11 1) (world0 (frame_v11 [dump_doc reply_empty]))
   = Ok (Some (dump_doc reply_empty)) (mk_world [] [] 1024 false) /\
   read_corpus [reply_empty] (dump_doc reply_empty) = Some reply_empty /\
   nc_session_recv_reply (read_corpus [reply_empty]) (Some (session_on NETCONFV11 1))
     (world0 (frame_v11 [dump_doc reply_empty]))
   = UB) /\
  (receive_text (session_on NETCONFV11 1)
     (world0 (frame_v11 [dump_doc reply_after_comment]))
   = Ok (Some (dump_doc reply_after_comment)) (mk_world [] [] 1024 false) /\
   read_corpus [reply_after_comment] (dump_doc reply_after_comment)
   = Some reply_after_comment /\
   nc_session_recv_reply (read_corpus [reply_after_comment])
     (Some (session_on NETCONFV11 1))
     (world0 (frame_v11 [dump_doc reply_after_comment]))
   = Ok (0, Some (mk_msg reply_after_comment 0 NC_REPLY_UNKNOWN))
        (mk_world [] [] 1024 false)).
Proof. repeat split; vm_compute; reflexivity. Qed.

(** C10. Called with NULL, [nc_session_get_id] and
    [nc_session_get_cpblts] return NULL, [nc_session_get_version] and
    [nc_session_get_eventfd] return -1, [nc_cpblts_iter_next] returns
    NULL, [nc_cpblts_free] frees nothing and [nc_cpblts_iter_start]
    changes nothing; [nc_cpblts_add] and [nc_cpblts_remove] fail on a
    NULL set or a NULL string. None of them is undefined. *)
Theorem null_arguments_are_handled :
  nc_session_get_id None = None /\
  nc_session_get_cpblts None = None /\
  nc_session_get_version None = -1 /\
  nc_session_get_eventfd None = -1 /\
  nc_cpblts_iter_next None = Done (None, None) /\
  nc_cpblts_free None = Done ([], 0%nat) /\
  nc_cpblts_iter_start None = None /\
  (forall uri, nc_cpblts_add None uri = Done (EXIT_FAILURE, None)) /\
  (forall uri, nc_cpblts_remove None uri = Done (EXIT_FAILURE, None)) /\
  (forall c, nc_cpblts_add c None = Done (EXIT_FAILURE, c)) /\
  (forall c, nc_cpblts_remove c None = Done (EXIT_FAILURE, c)).
Proof.
  repeat split; try reflexivity; intros [c|]; reflexivity.
Qed.

(** * Further properties of the code *)

(** ** The storage of a capability set *)

Lemma set_nth_middle (a b : list slot) (x v : slot) :
  set_nth (a ++ x :: b) (length a) v = a ++ v :: b.
Proof. induction a as [|y a IH]; simpl; [reflexivity|now rewrite IH]. Qed.

Lemma load_middle (a b : list slot) (x : slot) :
  load (a ++ x :: b) (Z.of_nat (length a)) = Done x.
Proof.
  unfold load, in_block. rewrite length_app. simpl length.
  destruct (Z.leb_spec 0 (Z.of_nat (length a))); [|lia].
  destruct (Z.ltb_spec (Z.of_nat (length a)) (Z.of_nat (length a + S (length b))));
    [|lia].
  simpl. now rewrite Nat2Z.id, nth_middle.
Qed.

Lemma store_middle (a b : list slot) (x v : slot) :
  store (a ++ x :: b) (Z.of_nat (length a)) v = Done (a ++ v :: b).
Proof.
  unfold store, in_block. rewrite length_app. simpl length.
  destruct (Z.leb_spec 0 (Z.of_nat (length a))); [|lia].
  destruct (Z.ltb_spec (Z.of_nat (length a)) (Z.of_nat (length a + S (length b))));
    [|lia].
  simpl. now rewrite Nat2Z.id, set_nth_middle.
Qed.

Lemma store_outside (l : list slot) (i : Z) (v : slot) :
  Z.of_nat (length l) <= i -> store l i v = Undefined.
Proof.
  intros H. unfold store, in_block.
  destruct (Z.ltb_spec i (Z.of_nat (length l))); [lia|].
  now rewrite andb_false_r.
Qed.

Lemma realloc_length (l : list slot) (nbytes : Z) :
  length (realloc l nbytes) = Z.to_nat (nbytes / SIZEOF_PTR).
Proof.
  unfold realloc. rewrite length_app, length_firstn, repeat_length. lia.
Qed.

(** ** [nc_cpblts_add] *)

(** X1. [nc_cpblts_add] needs three cells after the stored strings: the
    new string goes into the first, the second keeps what it held and
    the third receives the NULL. The count goes up by one; cursor and
    capacity stay. *)
Theorem cpblts_add_appends (c : nc_cpblts) (ss : list cstring) (s : cstring)
    (t0 t1 t2 : slot) (free : list slot) :
  holds c ss (t0 :: t1 :: t2 :: free) ->
  exists c',
    nc_cpblts_add (Some c) (Some s) = Done (EXIT_SUCCESS, Some c') /\
    holds c' (ss ++ [s]) (t1 :: Null :: free) /\
    iter c' = iter c /\ list_size c' = list_size c.
Proof.
  intros (Hl & Hi & Hs). unfold nc_cpblts_add.
  destruct (Z.gtb_spec (items c) (list_size c)) as [Hgt|_];
    [rewrite Hi, Hs, Nat2Z.inj_add in Hgt; lia|].
  rewrite Hl, Hi.
  replace (Z.of_nat (length ss)) with (Z.of_nat (length (map Str ss)))
    by now rewrite length_map.
  rewrite store_middle. cbn [obind]. unfold grow_and_terminate.
  rewrite Hi, Hs.
  destruct (Z.eqb_spec (Z.of_nat (length ss) + 1)
              (Z.of_nat (length ss + length (t0 :: t1 :: t2 :: free)))) as [E|_];
    [simpl length in E; lia|].
  replace (map Str ss ++ Str s :: t1 :: t2 :: free)
    with ((map Str ss ++ [Str s; t1]) ++ t2 :: free)
    by (rewrite <- app_assoc; reflexivity).
  replace (Z.of_nat (length ss) + 1 + 1)
    with (Z.of_nat (length (map Str ss ++ [Str s; t1])))
    by (rewrite length_app, length_map; simpl length; lia).
  rewrite store_middle. cbn [obind].
  eexists. split; [reflexivity|].
  split; [|split; reflexivity].
  unfold holds. cbn [clist items list_size].
  rewrite map_app, <- !app_assoc, length_app. simpl length.
  repeat split; lia.
Qed.

Lemma cpblts_add_appends_witness :
  exists c',
    nc_cpblts_add (Some (mk_cpblts 0 4 1 (Some [Str (bs "a"); Null; Undef; Undef])))
                  (Some (bs "b"))
    = Done (EXIT_SUCCESS, Some c') /\
    holds c' ([bs "a"] ++ [bs "b"]) [Undef; Null] /\
    iter c' = 0 /\ list_size c' = 4.
Proof.
  apply (cpblts_add_appends (mk_cpblts 0 4 1 (Some [Str (bs "a"); Null; Undef; Undef]))
           [bs "a"] (bs "b") Null Undef Undef []).
  repeat split.
Defined.

(** X2. With fewer than three cells left after the stored strings,
    [nc_cpblts_add] writes outside the storage: the NULL goes two cells
    after the new string, and the [realloc] that should make room
    is given [list_size * 2] bytes, not cells. *)
Theorem cpblts_add_overruns (c : nc_cpblts) (ss : list cstring) (s : cstring)
    (free : list slot) :
  holds c ss free ->
  (length free < 3)%nat ->
  nc_cpblts_add (Some c) (Some s) = Undefined.
Proof.
  intros (Hl & Hi & Hs) Hfree. unfold nc_cpblts_add.
  destruct (Z.gtb_spec (items c) (list_size c)) as [Hgt|_];
    [rewrite Hi, Hs, Nat2Z.inj_add in Hgt; lia|].
  rewrite Hl, Hi.
  destruct free as [|t0 free].
  - rewrite store_outside; [reflexivity|].
    rewrite app_nil_r, length_map. lia.
  - replace (Z.of_nat (length ss)) with (Z.of_nat (length (map Str ss)))
      by now rewrite length_map.
    rewrite store_middle. cbn [obind]. unfold grow_and_terminate.
    rewrite Hi, Hs.
    destruct free as [|t1 free].
    + destruct (Z.eqb_spec (Z.of_nat (length ss) + 1)
                  (Z.of_nat (length ss + length [t0]))) as [_|N];
        [|simpl length in N; lia].
      rewrite store_outside; [reflexivity|].
      rewrite realloc_length. unfold SIZEOF_PTR. simpl length.
      rewrite Z2Nat.id by (apply Z.div_pos; lia).
      assert (Z.of_nat (length ss + 1) * 2 / 8 <= Z.of_nat (length ss + 1))
        by (apply Z.div_le_upper_bound; lia).
      lia.
    + destruct free as [|t2 free]; [|simpl in Hfree; lia].
      destruct (Z.eqb_spec (Z.of_nat (length ss) + 1)
                  (Z.of_nat (length ss + length [t0; t1]))) as [E|_];
        [simpl length in E; lia|].
      rewrite store_outside; [reflexivity|].
      rewrite length_app, length_map. simpl length. lia.
Qed.

Lemma cpblts_add_overruns_witness :
  nc_cpblts_add (Some (mk_cpblts 0 3 1 (Some [Str (bs "a"); Null; Undef])))
                (Some (bs "b"))
  = Undefined.
Proof.
  apply (cpblts_add_overruns _ [bs "a"] (bs "b") [Null; Undef]).
  - repeat split.
  - simpl. lia.
Defined.

(** ** [nc_cpblts_new] *)

(** The loop of [nc_cpblts_new] while room is left: every string it
    meets is stored and followed by the NULL. *)
Lemma new_loop_fills : forall (pending done : list cstring) (item : cstring) (k : nat),
  (length pending + 1 <= k)%nat ->
  Z.of_nat (length done + 1 + k) = 10 ->
  new_loop pending (Z.of_nat (length done)) item
    (mk_cpblts 0 10 (Z.of_nat (length done))
       (Some (map Str done ++ Null :: repeat Undef k)))
  = Done (mk_cpblts 0 10 (Z.of_nat (length (done ++ item :: pending)))
            (Some (map Str (done ++ item :: pending) ++
                   Null :: repeat Undef (k - 1 - length pending)))).
Proof.
  induction pending as [|next pending IH]; intros done item k Hk Hcap;
    (destruct k as [|k]; [simpl in Hk; lia|]).
  - cbn [new_loop clist].
    replace (Z.of_nat (length done)) with (Z.of_nat (length (map Str done)))
      by now rewrite length_map.
    rewrite store_middle. cbn [obind]. unfold grow_and_terminate.
    cbn [items list_size iter]. rewrite length_map.
    destruct (Z.eqb_spec (Z.of_nat (length done) + 1) 10); [lia|].
    cbn [repeat].
    replace (map Str done ++ Str item :: Undef :: repeat Undef k)
      with ((map Str done ++ [Str item]) ++ Undef :: repeat Undef k)
      by (rewrite <- app_assoc; reflexivity).
    replace (Z.of_nat (length done) + 1)
      with (Z.of_nat (length (map Str done ++ [Str item])))
      by (rewrite length_app, length_map; simpl length; lia).
    rewrite store_middle. cbn [obind].
    rewrite !length_app, length_map, map_app, <- app_assoc.
    simpl length.
    replace (S k - 1 - 0)%nat with k by lia.
    rewrite <- !app_assoc. reflexivity.
  - cbn [new_loop clist].
    replace (Z.of_nat (length done)) with (Z.of_nat (length (map Str done)))
      by now rewrite length_map.
    rewrite store_middle. cbn [obind]. unfold grow_and_terminate.
    cbn [items list_size iter]. rewrite length_map.
    destruct (Z.eqb_spec (Z.of_nat (length done) + 1) 10); [simpl in Hk; lia|].
    cbn [repeat].
    replace (map Str done ++ Str item :: Undef :: repeat Undef k)
      with ((map Str done ++ [Str item]) ++ Undef :: repeat Undef k)
      by (rewrite <- app_assoc; reflexivity).
    replace (Z.of_nat (length done) + 1)
      with (Z.of_nat (length (map Str done ++ [Str item])))
      by (rewrite length_app, length_map; simpl length; lia).
    rewrite store_middle. cbn [obind].
    replace (map Str done ++ [Str item]) with (map Str (done ++ [item]))
      by (rewrite map_app; reflexivity).
    replace (Z.of_nat (length (map Str (done ++ [item]))))
      with (Z.of_nat (length (done ++ [item])))
      by now rewrite length_map.
    rewrite IH.
    + rewrite <- !app_assoc. simpl app. simpl length.
      replace (k - 0 - S (length pending))%nat with (k - 1 - length pending)%nat by lia.
      reflexivity.
    + simpl in Hk. lia.
    + rewrite length_app. simpl length. lia.
Qed.

(** X3. [nc_cpblts_new] on an array of one to eight strings stores the
    first string twice, then the others in order, and the NULL after
    them: [item = list[i++]] reads [list[0]] again after the first
    round. *)
Theorem cpblts_new_stores_first_twice (first : cstring) (more : list cstring) :
  (length more <= 7)%nat ->
  exists c,
    nc_cpblts_new (Some (first :: more)) = Done c /\
    holds c (first :: first :: more) (Null :: repeat Undef (7 - length more)) /\
    iter c = 0 /\ list_size c = 10.
Proof.
  intros Hlen.
  assert (Hrun : nc_cpblts_new (Some (first :: more))
                 = Done (mk_cpblts 0 10
                           (Z.of_nat (length ([] ++ first :: first :: more)))
                           (Some (map Str ([] ++ first :: first :: more) ++
                                  Null :: repeat Undef (9 - 1 - length (first :: more))))))
    by (apply (new_loop_fills (first :: more) [] first 9); simpl; lia).
  eexists. split; [exact Hrun|]. split; [|split; reflexivity].
  unfold holds. cbn [clist items list_size app].
  replace (9 - 1 - length (first :: more))%nat with (7 - length more)%nat
    by (simpl length; lia).
  repeat split.
  cbn [length]. rewrite repeat_length. lia.
Qed.

Lemma cpblts_new_stores_first_twice_witness :
  exists c,
    nc_cpblts_new (Some [bs "a"; bs "b"]) = Done c /\
    holds c [bs "a"; bs "a"; bs "b"] (Null :: repeat Undef (7 - length [bs "b"])) /\
    iter c = 0 /\ list_size c = 10.
Proof.
  apply (cpblts_new_stores_first_twice (bs "a") [bs "b"]). simpl. lia.
Defined.

(** X4. [nc_cpblts_new] on an array of nine strings or more writes
    outside the storage: the tenth round reaches the capacity, the
    [realloc] leaves 20 bytes and the NULL is written at index 10. *)
Theorem cpblts_new_overruns (src : list cstring) :
  (9 <= length src)%nat ->
  nc_cpblts_new (Some src) = Undefined.
Proof.
  intros Hlen.
  do 9 (destruct src as [|? src]; [simpl in Hlen; lia|]).
  destruct src; reflexivity.
Qed.

Lemma cpblts_new_overruns_witness :
  nc_cpblts_new (Some (repeat (bs "urn:x") 9)) = Undefined.
Proof.
  apply cpblts_new_overruns. simpl. lia.
Defined.

(** ** Iteration *)

Lemma with_iter_same (c : nc_cpblts) : with_iter c (iter c) = c.
Proof. now destruct c. Qed.

Lemma iter_next_string (c : nc_cpblts) (pre post : list slot) (t : cstring) :
  clist c = Some (pre ++ Str t :: post) ->
  iter c = Z.of_nat (length pre) ->
  iter c < items c ->
  nc_cpblts_iter_next (Some c) = Done (Some t, Some (with_iter c (iter c + 1))).
Proof.
  intros Hl Hi Hlt. unfold nc_cpblts_iter_next, with_iter. rewrite Hl.
  destruct (Z.gtb_spec (iter c) (items c - 1)); [lia|].
  replace (load (pre ++ Str t :: post) (iter c)) with (Done (Str t))
    by (rewrite Hi; symmetry; apply load_middle).
  reflexivity.
Qed.

Lemma iter_next_null (c : nc_cpblts) (pre post : list slot) :
  clist c = Some (pre ++ Null :: post) ->
  iter c = Z.of_nat (length pre) ->
  iter c < items c ->
  nc_cpblts_iter_next (Some c) = Undefined.
Proof.
  intros Hl Hi Hlt. unfold nc_cpblts_iter_next. rewrite Hl.
  destruct (Z.gtb_spec (iter c) (items c - 1)); [lia|].
  now rewrite Hi, load_middle.
Qed.

Lemma iter_next_n_strings : forall (todo : list cstring) (pre free : list slot)
    (c : nc_cpblts),
  clist c = Some (pre ++ map Str todo ++ free) ->
  iter c = Z.of_nat (length pre) ->
  Z.of_nat (length pre + length todo) <= items c ->
  iter_next_n (length todo) (Some c)
  = Done (map Some todo, Some (with_iter c (iter c + Z.of_nat (length todo)))).
Proof.
  induction todo as [|t todo IH]; intros pre free c Hl Hi Hlen.
  - simpl. now rewrite Z.add_0_r, with_iter_same.
  - cbn [length iter_next_n]. simpl map in Hl. simpl app in Hl.
    rewrite (iter_next_string c pre (map Str todo ++ free) t Hl Hi)
      by (simpl length in Hlen; lia).
    cbn [obind snd fst].
    rewrite (IH (pre ++ [Str t]) free (with_iter c (iter c + 1))).
    + cbn [obind fst snd map]. unfold with_iter. cbn [iter list_size items clist].
      replace (iter c + 1 + Z.of_nat (length todo))
        with (iter c + Z.of_nat (S (length todo))) by lia.
      reflexivity.
    + cbn [with_iter clist]. rewrite Hl, <- app_assoc. reflexivity.
    + cbn [with_iter iter]. rewrite Hi, length_app. simpl length. lia.
    + cbn [with_iter items]. rewrite length_app. simpl length in *. lia.
Qed.

Lemma iter_next_n_meets_null : forall (todo : list cstring) (pre free : list slot)
    (c : nc_cpblts),
  clist c = Some (pre ++ map Str todo ++ Null :: free) ->
  iter c = Z.of_nat (length pre) ->
  Z.of_nat (length pre + length todo) < items c ->
  iter_next_n (S (length todo)) (Some c) = Undefined.
Proof.
  induction todo as [|t todo IH]; intros pre free c Hl Hi Hlen.
  - cbn [length iter_next_n]. simpl in Hl.
    rewrite (iter_next_null c pre free Hl Hi) by (simpl in Hlen; lia).
    reflexivity.
  - cbn [length]. change (iter_next_n (S (S (length todo))) (Some c))
      with (r <- nc_cpblts_iter_next (Some c) ;;
            rs <- iter_next_n (S (length todo)) (snd r) ;;
            Done (fst r :: fst rs, snd rs)).
    simpl map in Hl. simpl app in Hl.
    rewrite (iter_next_string c pre (map Str todo ++ Null :: free) t Hl Hi)
      by (simpl length in Hlen; lia).
    cbn [obind snd fst].
    rewrite (IH (pre ++ [Str t]) free (with_iter c (iter c + 1))); [reflexivity| | |].
    + cbn [with_iter clist]. rewrite Hl, <- app_assoc. reflexivity.
    + cbn [with_iter iter]. rewrite Hi, length_app. simpl length. lia.
    + cbn [with_iter items]. rewrite length_app. simpl length in *. lia.
Qed.

Lemma cpblts_iteration_in_order_aux (c : nc_cpblts) (ss : list cstring)
    (free : list slot) :
  holds c ss free ->
  iter_next_n (length ss) (nc_cpblts_iter_start (Some c))
  = Done (map Some ss, Some (with_iter c (items c))) /\
  nc_cpblts_iter_next (Some (with_iter c (items c)))
  = Done (None, Some (with_iter c (items c))).
Proof.
  intros (Hl & Hi & Hs). split.
  - change (nc_cpblts_iter_start (Some c)) with (Some (with_iter c 0)).
    rewrite (iter_next_n_strings ss [] free (with_iter c 0)).
    + cbn [with_iter iter list_size items clist]. now rewrite Hi.
    + exact Hl.
    + reflexivity.
    + cbn [with_iter items]. simpl length. lia.
  - unfold nc_cpblts_iter_next. cbn [with_iter clist iter items]. rewrite Hl.
    destruct (Z.gtb_spec (items c) (items c - 1)); [reflexivity|lia].
Qed.

(** X5. After [nc_cpblts_iter_start], as many calls of
    [nc_cpblts_iter_next] as the set holds strings return the strings
    in the order of the storage, and the call after them returns NULL
    and leaves the cursor where it is. *)
Theorem cpblts_iteration_in_order (c : nc_cpblts) (ss : list cstring)
    (free : list slot) :
  holds c ss free ->
  iter_next_n (length ss) (nc_cpblts_iter_start (Some c))
  = Done (map Some ss, Some (with_iter c (items c))) /\
  nc_cpblts_iter_next (Some (with_iter c (items c)))
  = Done (None, Some (with_iter c (items c))).
Proof. apply cpblts_iteration_in_order_aux. Qed.

Lemma cpblts_iteration_in_order_witness :
  iter_next_n (length [bs "a"; bs "b"])
    (nc_cpblts_iter_start (Some (mk_cpblts 1 4 2 (Some [Str (bs "a"); Str (bs "b"); Null; Undef]))))
  = Done (map Some [bs "a"; bs "b"],
          Some (with_iter (mk_cpblts 1 4 2 (Some [Str (bs "a"); Str (bs "b"); Null; Undef])) 2)) /\
  nc_cpblts_iter_next
    (Some (with_iter (mk_cpblts 1 4 2 (Some [Str (bs "a"); Str (bs "b"); Null; Undef])) 2))
  = Done (None,
          Some (with_iter (mk_cpblts 1 4 2 (Some [Str (bs "a"); Str (bs "b"); Null; Undef])) 2)).
Proof.
  apply (cpblts_iteration_in_order
           (mk_cpblts 1 4 2 (Some [Str (bs "a"); Str (bs "b"); Null; Undef]))
           [bs "a"; bs "b"] [Null; Undef]).
  repeat split.
Defined.

(** X6. [nc_cpblts_new] on an array of one to eight strings, then
    [nc_cpblts_iter_start] and a full iteration: the first string
    comes out twice, then the others in the order of the array. *)
Theorem cpblts_new_then_iterate (first : cstring) (more : list cstring) :
  (length more <= 7)%nat ->
  exists c c',
    nc_cpblts_new (Some (first :: more)) = Done c /\
    iter_next_n (S (S (length more))) (nc_cpblts_iter_start (Some c))
    = Done (map Some (first :: first :: more), Some c') /\
    nc_cpblts_iter_next (Some c') = Done (None, Some c').
Proof.
  intros Hlen.
  assert (Hrun : nc_cpblts_new (Some (first :: more))
                 = Done (mk_cpblts 0 10
                           (Z.of_nat (length ([] ++ first :: first :: more)))
                           (Some (map Str ([] ++ first :: first :: more) ++
                                  Null :: repeat Undef (9 - 1 - length (first :: more))))))
    by (apply (new_loop_fills (first :: more) [] first 9); simpl; lia).
  set (c := mk_cpblts _ _ _ _) in Hrun.
  assert (Hc : holds c (first :: first :: more)
                 (Null :: repeat Undef (9 - 1 - length (first :: more)))).
  { subst c. unfold holds. cbn [clist items list_size app]. repeat split.
    cbn [length]. rewrite repeat_length. lia. }
  exists c, (with_iter c (items c)). split; [exact Hrun|].
  exact (cpblts_iteration_in_order_aux c _ _ Hc).
Qed.

Lemma cpblts_new_then_iterate_witness :
  exists c c',
    nc_cpblts_new (Some [bs "a"; bs "b"]) = Done c /\
    iter_next_n (S (S (length [bs "b"]))) (nc_cpblts_iter_start (Some c))
    = Done (map Some [bs "a"; bs "a"; bs "b"], Some c') /\
    nc_cpblts_iter_next (Some c') = Done (None, Some c').
Proof.
  apply (cpblts_new_then_iterate (bs "a") [bs "b"]). simpl. lia.
Defined.

(** ** [nc_cpblts_remove] *)

Lemma streq_false (a b : cstring) : a <> b -> streq a b = false.
Proof. apply bytes_eqb_neq. Qed.

Lemma streq_refl (a : cstring) : streq a a = true.
Proof. apply bytes_eqb_refl. Qed.


Lemma find_from_present (s : cstring) : forall (todo : list cstring) (pre rest : list slot)
    (n : nat),
  ~ In s todo ->
  (length todo < n)%nat ->
  find_from (pre ++ map Str todo ++ Str s :: rest) s (Z.of_nat (length pre)) n
  = Done (Z.of_nat (length pre + length todo)).
Proof.
  induction todo as [|t todo IH]; intros pre rest n Hin Hn;
    (destruct n as [|n]; [simpl in Hn; lia|]).
  - cbn [find_from map app]. rewrite load_middle. cbn [obind].
    rewrite streq_refl. simpl length. now rewrite Nat.add_0_r.
  - cbn [find_from map app]. rewrite load_middle. cbn [obind].
    rewrite streq_false by (intros ->; apply Hin; now left).
    replace (Z.of_nat (length pre) + 1) with (Z.of_nat (length (pre ++ [Str t])))
      by (rewrite length_app; simpl length; lia).
    replace (pre ++ Str t :: map Str todo ++ Str s :: rest)
      with ((pre ++ [Str t]) ++ map Str todo ++ Str s :: rest)
      by (rewrite <- app_assoc; reflexivity).
    rewrite IH; [|intros H; apply Hin; now right|simpl in Hn; lia].
    rewrite length_app. simpl length. f_equal. lia.
Qed.



Lemma last_first_snoc (post : list cstring) (z : cstring) :
  last_first (post ++ [z]) = z :: post.
Proof. unfold last_first. rewrite rev_app_distr. simpl. now rewrite rev_involutive. Qed.

(** What [nc_cpblts_remove] returns for a string the set holds. *)
Lemma remove_present_run (c : nc_cpblts) (pre post : list cstring) (s : cstring)
    (free : list slot) :
  holds c (pre ++ s :: post) free ->
  ~ In s pre ->
  nc_cpblts_remove (Some c) (Some s)
  = Done (EXIT_SUCCESS,
          Some (mk_cpblts (iter c) (list_size c - 1) (items c)
                  (Some (map Str (pre ++ last_first post) ++ Null :: free)))).
Proof.
  intros (Hl & Hi & Hs) Hin. unfold nc_cpblts_remove.
  destruct (Z.gtb_spec (items c) (list_size c)) as [Hgt|_];
    [rewrite Hi, Hs, Nat2Z.inj_add in Hgt; lia|].
  rewrite Hl. rewrite map_app. simpl map. rewrite <- app_assoc. simpl app.
  pose proof (find_from_present s pre [] (map Str post ++ free) (Z.to_nat (items c)) Hin)
    as Hf.
  cbn [app length] in Hf. change (Z.of_nat 0) with 0 in Hf.
  rewrite Hf by (rewrite Hi, Nat2Z.id, length_app; simpl length; lia).
  cbn [obind]. rewrite Nat.add_0_l.
  destruct (Z.ltb_spec (Z.of_nat (length pre)) (items c)) as [_|Hge];
    [|rewrite Hi, length_app in Hge; simpl length in Hge; lia].
  destruct (rev post) as [|z r] eqn:Er.
  - (* the string removed is the last one *)
    assert (post = []) as -> by (apply (f_equal (@rev _)) in Er; now rewrite rev_involutive in Er).
    simpl map. simpl app. unfold last_first. simpl rev. rewrite app_nil_r.
    replace (items c - 1) with (Z.of_nat (length (map Str pre)))
      by (rewrite Hi, length_app, length_map; simpl length; lia).
    rewrite load_middle. cbn [obind].
    rewrite <- (length_map Str pre) at 1. rewrite store_middle. cbn [obind].
    rewrite store_middle. reflexivity.
  - assert (post = rev r ++ [z]) as ->
      by (apply (f_equal (@rev _)) in Er; now rewrite rev_involutive in Er).
    rewrite last_first_snoc.
    rewrite map_app. simpl map. rewrite <- app_assoc. simpl app.
    replace (map Str pre ++ Str s :: map Str (rev r) ++ Str z :: free)
      with ((map Str pre ++ Str s :: map Str (rev r)) ++ Str z :: free)
      by (rewrite <- app_assoc; reflexivity).
    replace (items c - 1)
      with (Z.of_nat (length (map Str pre ++ Str s :: map Str (rev r))))
      by (rewrite Hi, !length_app, !length_map; simpl length;
          rewrite length_app, length_map; simpl length; lia).
    rewrite load_middle. cbn [obind].
    rewrite <- app_assoc. simpl app.
    rewrite <- (length_map Str pre) at 1. rewrite store_middle. cbn [obind].
    replace (map Str pre ++ Str z :: map Str (rev r) ++ Str z :: free)
      with ((map Str pre ++ Str z :: map Str (rev r)) ++ Str z :: free)
      by (rewrite <- app_assoc; reflexivity).
    replace (length (map Str pre ++ Str s :: map Str (rev r)))
      with (length (map Str pre ++ Str z :: map Str (rev r)))
      by (rewrite !length_app; reflexivity).
    rewrite store_middle. cbn [obind].
    rewrite map_app. simpl map. rewrite <- app_assoc. reflexivity.
Qed.



(** X9. After [nc_cpblts_remove] has removed a string, a full
    iteration of the set ([items] calls of [nc_cpblts_iter_next] after
    [nc_cpblts_iter_start]) is undefined: [items] still counts the
    cell that now holds NULL, and the last call hands it to [strdup]. *)
Theorem cpblts_remove_then_iterate (c : nc_cpblts) (pre post : list cstring)
    (s : cstring) (free : list slot) :
  holds c (pre ++ s :: post) free ->
  ~ In s pre ->
  exists c',
    nc_cpblts_remove (Some c) (Some s) = Done (EXIT_SUCCESS, Some c') /\
    iter_next_n (Z.to_nat (items c')) (nc_cpblts_iter_start (Some c')) = Undefined.
Proof.
  intros H Hin. eexists. split; [exact (remove_present_run c pre post s free H Hin)|].
  destruct H as (Hl & Hi & Hs).
  cbn [items]. rewrite Hi, Nat2Z.id.
  assert (Hlen : length (pre ++ s :: post) = S (length (pre ++ last_first post))).
  { rewrite !length_app. simpl length. unfold last_first.
    destruct (rev post) as [|z r] eqn:Er.
    - apply (f_equal (@length _)) in Er. rewrite length_rev in Er. simpl in *. lia.
    - apply (f_equal (@length _)) in Er. rewrite length_rev in Er.
      simpl length in *. rewrite length_rev. lia. }
  rewrite Hlen.
  apply (iter_next_n_meets_null (pre ++ last_first post) [] free).
  - reflexivity.
  - reflexivity.
  - cbn [items length]. lia.
Qed.

Lemma cpblts_remove_then_iterate_witness :
  exists c',
    nc_cpblts_remove
      (Some (mk_cpblts 0 5 3 (Some [Str (bs "a"); Str (bs "b"); Str (bs "c"); Null; Undef])))
      (Some (bs "a"))
    = Done (EXIT_SUCCESS, Some c') /\
    iter_next_n (Z.to_nat (items c')) (nc_cpblts_iter_start (Some c')) = Undefined.
Proof.
  apply (cpblts_remove_then_iterate
           (mk_cpblts 0 5 3 (Some [Str (bs "a"); Str (bs "b"); Str (bs "c"); Null; Undef]))
           [] [bs "b"; bs "c"] (bs "a") [Null; Undef]).
  - repeat split.
  - intros [].
Defined.

(** ** [nc_session_read_until] *)

Lemma ends_with_short (tag l : list byte) :
  (length l < length tag)%nat -> ends_with tag l = false.
Proof.
  intros H. unfold ends_with, lastn. apply bytes_eqb_neq. intros E.
  apply (f_equal (@length _)) in E. rewrite length_skipn in E. lia.
Qed.

Lemma read_until_loop_sound (e : env) (src : source) (tag : cstring) (zeroed : Z) :
  forall (input buf out : list byte) (buflen : Z) r w',
  read_until_loop e src tag zeroed buflen buf input out = Ok r w' ->
  exists pre,
    input = pre ++ w_in w' /\
    pre <> [] /\
    r = (c_str (buf ++ pre), Z.of_nat (length (buf ++ pre))) /\
    ends_with tag (buf ++ pre) = true /\
    (forall k, (0 < k < length pre)%nat -> (length tag <= length buf + k)%nat ->
               ends_with tag (buf ++ firstn k pre) = false) /\
    Z.of_nat (length (buf ++ pre)) < zeroed /\
    w_out w' = out /\ rd_buf_freed w' = false.
Proof.
  induction input as [|b rest IH]; intros buf out buflen r w' H.
  - simpl in H. destruct src; discriminate.
  - simpl in H.
    assert (Hcons : forall pre', buf ++ b :: pre' = (buf ++ [b]) ++ pre')
      by (intros; rewrite <- app_assoc; reflexivity).
    destruct (Z.ltb_spec (Z.of_nat (length (buf ++ [b]))) (Z.of_nat (length tag)))
      as [Hshort|Hlong].
    + apply IH in H as (pre & -> & Hne & -> & Hend & Hmin & Hz & Hout & Hfr).
      exists (b :: pre). rewrite (Hcons pre). repeat split; auto; try discriminate.
      intros k Hk Hlen. destruct k as [|k]; [lia|].
      rewrite length_app in Hshort. simpl length in Hshort.
      simpl firstn. rewrite (Hcons (firstn k pre)). apply Hmin.
      * simpl length in Hk. destruct k; [lia|lia].
      * rewrite length_app. simpl length. lia.
    + destruct (ends_with tag (buf ++ [b])) eqn:Hend.
      * destruct (Z.ltb_spec (Z.of_nat (length (buf ++ [b]))) zeroed); [|discriminate].
        injection H as <- <-. exists [b]. repeat split; auto; try discriminate.
        intros k Hk. simpl in Hk. lia.
      * apply IH in H as (pre & -> & Hne & -> & Hend' & Hmin & Hz & Hout & Hfr).
        exists (b :: pre). rewrite (Hcons pre). repeat split; auto; try discriminate.
        intros k Hk Hlen. destruct k as [|k]; [lia|].
        simpl firstn. rewrite (Hcons (firstn k pre)).
        destruct k as [|k]; [simpl; now rewrite app_nil_r|].
        apply Hmin; [simpl length in Hk; lia|].
        rewrite length_app. simpl length. lia.
Qed.

(** X10. What [nc_session_read_until] returns on success: it has read
    the shortest prefix of the input that ends with the end tag, [len]
    is the length of that prefix and [text] its bytes up to the first
    NUL; the prefix is shorter than the buffer the call started with,
    and nothing was written. *)
Theorem read_until_returns_first_match (s : nc_session) (tag : cstring) (w w' : world)
    (text : cstring) (len : Z) :
  nc_session_read_until s tag w = Ok (text, len) w' ->
  exists pre,
    w_in w = pre ++ w_in w' /\
    len = Z.of_nat (length pre) /\
    text = c_str pre /\
    ends_with tag pre = true /\
    (forall k, (0 < k < length pre)%nat -> (length tag <= k)%nat ->
               ends_with tag (firstn k pre) = false) /\
    len < start_buflen (rd_buflen w) /\
    w_out w' = w_out w.
Proof.
  unfold nc_session_read_until. destruct (rd_buf_freed w); [discriminate|].
  intros H.
  assert (Hloop : exists src, read_until_loop (w_env w) src tag (start_buflen (rd_buflen w))
                    (start_buflen (rd_buflen w)) [] (w_in w) (w_out w) = Ok (text, len) w').
  { destruct (source_of s); [eexists; exact H|eexists; exact H|discriminate]. }
  destruct Hloop as [src Hloop].
  apply read_until_loop_sound in Hloop
    as (pre & Hin & Hne & Hr & Hend & Hmin & Hz & Hout & Hfr).
  simpl app in *. injection Hr as -> ->.
  exists pre. repeat split; auto.
Qed.

Lemma read_until_returns_first_match_witness :
  exists pre,
    w_in (world0 (bs "ab]]>]]>cd")) = pre ++ w_in (mk_world (bs "cd") [] 1024 false) /\
    8 = Z.of_nat (length pre) /\
    bs "ab]]>]]>" = c_str pre /\
    ends_with NC_V10_END_MSG pre = true /\
    (forall k, (0 < k < length pre)%nat -> (length NC_V10_END_MSG <= k)%nat ->
               ends_with NC_V10_END_MSG (firstn k pre) = false) /\
    8 < start_buflen (rd_buflen (world0 (bs "ab]]>]]>cd"))) /\
    w_out (mk_world (bs "cd") [] 1024 false) = w_out (world0 (bs "ab]]>]]>cd")).
Proof.
  apply (read_until_returns_first_match (session_on NETCONFV10 1) NC_V10_END_MSG
           (world0 (bs "ab]]>]]>cd")) (mk_world (bs "cd") [] 1024 false)
           (bs "ab]]>]]>") 8).
  vm_compute. reflexivity.
Defined.






Lemma read_until_loop_beyond (e : env) (src : source) (tag : cstring) (zeroed : Z) :
  forall (pre buf rest out : list byte) (buflen : Z),
  pre <> [] ->
  (forall k, (0 < k < length pre)%nat -> ends_with tag (buf ++ firstn k pre) = false) ->
  ends_with tag (buf ++ pre) = true ->
  (length tag <= length (buf ++ pre))%nat ->
  zeroed <= Z.of_nat (length (buf ++ pre)) ->
  read_until_loop e src tag zeroed buflen buf (pre ++ rest) out = UB.
Proof.
  induction pre as [|b pre IH]; intros buf rest out buflen Hne Hno Hend Htag Hz;
    [congruence|].
  assert (Hstep : forall k, (0 < k < length pre)%nat ->
                  ends_with tag ((buf ++ [b]) ++ firstn k pre) = false).
  { intros k Hk. rewrite <- app_assoc. apply (Hno (S k)). simpl. lia. }
  assert (Hcons : buf ++ b :: pre = (buf ++ [b]) ++ pre)
    by (rewrite <- app_assoc; reflexivity).
  simpl app. simpl read_until_loop.
  destruct pre as [|b' pre'].
  - rewrite Hend.
    destruct (Z.ltb_spec (Z.of_nat (length (buf ++ [b]))) (Z.of_nat (length tag))); [lia|].
    destruct (Z.ltb_spec (Z.of_nat (length (buf ++ [b]))) zeroed); [lia|reflexivity].
  - assert (Hnot : ends_with tag (buf ++ [b]) = false)
      by (apply (Hno 1%nat); simpl; lia).
    rewrite Hcons in *. rewrite Hnot.
    destruct (Z.of_nat (length (buf ++ [b])) <? Z.of_nat (length tag));
      apply IH; auto; discriminate.
Qed.

Lemma read_until_beyond_buffer_aux (e : env) (s : nc_session) (tag pre rest out : list byte)
    (bl : Z) :
  source_of s <> SrcNone ->
  pre <> [] ->
  (forall k, (0 < k < length pre)%nat -> ends_with tag (firstn k pre) = false) ->
  ends_with tag pre = true ->
  (length tag <= length pre)%nat ->
  start_buflen bl <= Z.of_nat (length pre) ->
  nc_session_read_until s tag (mk_world_in e (pre ++ rest) out bl false) = UB.
Proof.
  intros Hsrc Hne Hno Hend Htag Hz. unfold nc_session_read_until. simpl.
  pose proof (read_until_loop_beyond e (source_of s) tag (start_buflen bl)
                pre [] rest out (start_buflen bl) Hne Hno Hend Htag Hz) as H.
  destruct (source_of s); auto. congruence.
Qed.

(** X13. A message that reaches the size of the buffer
    [nc_session_read_until] starts with is not received: once the end
    tag comes at or after that size, the byte [strcmp] reads after it
    lies outside the buffer or in the part [realloc] added, which was
    never written. *)
Theorem read_until_beyond_buffer (s : nc_session) (tag pre rest out : list byte) (bl : Z) :
  source_of s <> SrcNone ->
  pre <> [] ->
  (forall k, (0 < k < length pre)%nat -> ends_with tag (firstn k pre) = false) ->
  ends_with tag pre = true ->
  (length tag <= length pre)%nat ->
  start_buflen bl <= Z.of_nat (length pre) ->
  nc_session_read_until s tag (mk_world (pre ++ rest) out bl false) = UB.
Proof. apply (read_until_beyond_buffer_aux env_ok). Qed.

Lemma read_until_beyond_buffer_witness :
  nc_session_read_until (session_on NETCONFV11 1) [LF]
    (mk_world (repeat "a"%byte 1023 ++ [LF]) [] 0 false)
  = UB.
Proof.
  rewrite <- (app_nil_r (repeat "a"%byte 1023 ++ [LF])).
  apply read_until_beyond_buffer.
  - discriminate.
  - discriminate.
  - intros k Hk. rewrite length_app, repeat_length in Hk. simpl length in Hk.
    apply ends_with_byte_absent.
    rewrite firstn_app, repeat_length.
    replace (k - 1023)%nat with 0%nat by lia.
    rewrite firstn_O, app_nil_r.
    apply Forall_forall. intros x Hx.
    assert (In x (repeat "a"%byte 1023))
      by (rewrite <- (firstn_skipn k (repeat "a"%byte 1023)); apply in_or_app; now left).
    apply repeat_spec in H. subst x. discriminate.
  - apply ends_with_last.
  - rewrite length_app, repeat_length. simpl. lia.
  - rewrite length_app, repeat_length. vm_compute. discriminate.
Defined.

(** ** [nc_session_read_len] *)

Lemma read_len_loop_short (src : source) (w : world) : forall (input buf : list byte) (n : Z),
  Z.of_nat (length input) < n ->
  read_len_loop src n buf input w
  = at_eof src (mk_world_in (w_env w) [] (w_out w) (rd_buflen w) (rd_buf_freed w)).
Proof.
  induction input as [|b rest IH]; intros buf n Hn; simpl read_len_loop.
  - destruct (Z.leb_spec n 0); [simpl in Hn; lia|reflexivity].
  - destruct (Z.leb_spec n 0); [simpl length in Hn; lia|].
    apply IH. simpl length in Hn. lia.
Qed.

Lemma read_len_unserved (s : nc_session) (n : Z) (w : world) :
  0 <= n < UINT64_MAX ->
  malloc_serves (w_env w) (n + 1) = false ->
  nc_session_read_len s n w = Failure w.
Proof.
  intros Hn Hno. unfold nc_session_read_len.
  rewrite malloc_size_small by lia. now rewrite Hno.
Qed.

Lemma read_len_takes_exactly_aux (e : env) (s : nc_session) (n : Z)
    (input out : list byte) (bl : Z) (fr : bool) :
  source_of s <> SrcNone ->
  0 <= n < UINT64_MAX ->
  nc_session_read_len s n (mk_world_in e input out bl fr)
  = if negb (malloc_serves e (n + 1)) then Failure (mk_world_in e input out bl fr)
    else if n <=? Z.of_nat (length input)
    then Ok (c_str (firstn (Z.to_nat n) input), n)
            (mk_world_in e (skipn (Z.to_nat n) input) out bl fr)
    else if ssh_channel s then Failure (mk_world_in e [] out bl fr) else Hang.
Proof.
  intros Hsrc Hn.
  destruct (malloc_serves e (n + 1)) eqn:Hserved; cbn [negb];
    [|now apply read_len_unserved].
  destruct (Z.leb_spec n (Z.of_nat (length input))) as [Hle|Hgt].
  - rewrite <- (firstn_skipn (Z.to_nat n) input) at 1.
    assert (Hlen : Z.of_nat (length (firstn (Z.to_nat n) input)) = n)
      by (rewrite length_firstn; lia).
    rewrite <- Hlen at 1. rewrite read_len_exact; auto; try lia.
    + now rewrite Hlen.
    + unfold served. now rewrite Hlen.
  - unfold nc_session_read_len. cbn [w_env].
    rewrite malloc_size_small by lia. rewrite Hserved. cbn [negb].
    destruct (Z.eqb_spec n UINT64_MAX); [lia|].
    unfold source_of in *. cbn [w_in].
    destruct (ssh_channel s).
    + now rewrite read_len_loop_short.
    + destruct (fd_input s =? -1); [congruence|].
      now rewrite read_len_loop_short.
Qed.

(** X14. [nc_session_read_len] with a [chunk_length] that [malloc] does
    not serve fails at once and reads nothing. Otherwise it takes
    exactly [chunk_length] bytes off the input when that many are
    there: [len] is [chunk_length] and [text] holds those bytes up to
    the first NUL; with fewer bytes before the end of the stream it
    fails on an SSH channel and does not return on a file
    descriptor. *)
Theorem read_len_takes_exactly (e : env) (s : nc_session) (n : Z)
    (input out : list byte) (bl : Z) (fr : bool) :
  source_of s <> SrcNone ->
  0 <= n < UINT64_MAX ->
  nc_session_read_len s n (mk_world_in e input out bl fr)
  = if negb (malloc_serves e (n + 1)) then Failure (mk_world_in e input out bl fr)
    else if n <=? Z.of_nat (length input)
    then Ok (c_str (firstn (Z.to_nat n) input), n)
            (mk_world_in e (skipn (Z.to_nat n) input) out bl fr)
    else if ssh_channel s then Failure (mk_world_in e [] out bl fr) else Hang.
Proof. apply read_len_takes_exactly_aux. Qed.

Lemma read_len_takes_exactly_witness :
  nc_session_read_len session_fd (4096)
    (mk_world_in env_small (bs "hello world") [] 1024 false)
  = (if negb (malloc_serves env_small (4096 + 1))
     then Failure (mk_world_in env_small (bs "hello world") [] 1024 false)
     else if 4096 <=? Z.of_nat (length (bs "hello world"))
     then Ok (c_str (firstn (Z.to_nat (4096)) (bs "hello world")), 4096)
             (mk_world_in env_small (skipn (Z.to_nat (4096)) (bs "hello world"))
                          [] 1024 false)
     else if ssh_channel session_fd
          then Failure (mk_world_in env_small [] [] 1024 false) else Hang) /\
  nc_session_read_len session_fd (4096)
    (mk_world_in env_small (bs "hello world") [] 1024 false)
  = Failure (mk_world_in env_small (bs "hello world") [] 1024 false) /\
  nc_session_read_len session_fd 5 (mk_world_in env_small (bs "hello world") [] 1024 false)
  = Ok (bs "hello", 5) (mk_world_in env_small (bs " world") [] 1024 false).
Proof.
  split; [|split].
  - apply read_len_takes_exactly.
    + discriminate.
    + split; [lia|reflexivity].
  - reflexivity.
  - vm_compute. reflexivity.
Defined.

(** ** Version 1.0 messages *)

(** The condition that no proper prefix ends with the tag, checked by
    running through the prefixes. *)
Lemma no_earlier_match_by_enumeration (tag l : list byte) :
  forallb (fun k => negb (ends_with tag (firstn k l))) (seq 1 (length l - 1)) = true ->
  forall k, (0 < k < length l)%nat -> ends_with tag (firstn k l) = false.
Proof.
  intros H k Hk. rewrite forallb_forall in H.
  apply negb_true_iff, H, in_seq. lia.
Qed.

(** X15. On a message that fits the buffer and holds the terminator
    only at its end, the version 1.0 decoder reads the whole frame and
    returns the payload without its last byte. *)
Theorem v10_decoder_returns_all_but_last (s : nc_session) (payload rest out : list byte)
    (bl : Z) :
  version s = NETCONFV10 ->
  source_of s <> SrcNone ->
  bl = 0 \/ 1024 <= bl ->
  payload <> [] ->
  no_nul payload ->
  (forall k, (0 < k < length (frame_v10 payload))%nat ->
             ends_with NC_V10_END_MSG (firstn k (frame_v10 payload)) = false) ->
  (length payload < 1000)%nat ->
  receive_text s (mk_world (frame_v10 payload ++ rest) out bl false)
  = Ok (Some (removelast payload)) (mk_world rest out (start_buflen bl) false).
Proof. apply (receive_v10_drops_last env_ok). Qed.

Lemma v10_decoder_returns_all_but_last_witness :
  receive_text (session_on NETCONFV10 1)
    (mk_world (frame_v10 (bs "<ok/>") ++ bs "next") [] 0 false)
  = Ok (Some (removelast (bs "<ok/>"))) (mk_world (bs "next") [] (start_buflen 0) false).
Proof.
  apply v10_decoder_returns_all_but_last.
  - reflexivity.
  - discriminate.
  - left; reflexivity.
  - discriminate.
  - repeat constructor; discriminate.
  - intros k Hk. simpl in Hk.
    assert (k = 1 \/ k = 2 \/ k = 3 \/ k = 4 \/ k = 5 \/ k = 6 \/ k = 7 \/ k = 8 \/
            k = 9 \/ k = 10)%nat as C by lia.
    repeat (destruct C as [-> | C]; [reflexivity|]). subst k. reflexivity.
  - simpl; lia.
Defined.

(** X16. A version 1.0 frame with an empty payload, the terminator
    alone, makes the decoder store its NUL at index
    [len - 1 - strlen (NC_V10_END_MSG)], which is -1 taken as a
    [size_t]: outside the text. *)
Theorem v10_empty_payload_undefined (s : nc_session) (rest out : list byte) (bl : Z) :
  version s = NETCONFV10 ->
  source_of s <> SrcNone ->
  bl = 0 \/ 1024 <= bl ->
  receive_text s (mk_world (NC_V10_END_MSG ++ rest) out bl false) = UB.
Proof.
  intros Hv Hsrc Hbl.
  destruct (start_buflen_idem bl Hbl) as [_ Hbig].
  unfold receive_text, receive_v10, mk_world. rewrite Hv. simpl (NETCONFV10 =? NETCONFV10).
  rewrite (read_until_found env_ok s NC_V10_END_MSG NC_V10_END_MSG rest out bl).
  - reflexivity.
  - exact Hsrc.
  - discriminate.
  - intros k Hk. simpl in Hk.
    assert (k = 1 \/ k = 2 \/ k = 3 \/ k = 4 \/ k = 5)%nat as C by lia.
    repeat (destruct C as [-> | C]; [reflexivity|]). subst k. reflexivity.
  - reflexivity.
  - simpl. lia.
  - simpl. lia.
Qed.

Lemma v10_empty_payload_undefined_witness :
  receive_text (session_on NETCONFV10 1) (mk_world (NC_V10_END_MSG ++ bs "x") [] 0 false)
  = UB.
Proof.
  apply v10_empty_payload_undefined.
  - reflexivity.
  - discriminate.
  - left; reflexivity.
Defined.

(** X17. The first version 1.0 message of a process is not received
    when its frame has 1024 bytes or more, the size
    [nc_session_read_until] first gives its buffer. *)
Theorem v10_first_message_too_long (s : nc_session) (payload rest out : list byte) :
  version s = NETCONFV10 ->
  source_of s <> SrcNone ->
  (forall k, (0 < k < length (frame_v10 payload))%nat ->
             ends_with NC_V10_END_MSG (firstn k (frame_v10 payload)) = false) ->
  (1018 <= length payload)%nat ->
  receive_text s (mk_world (frame_v10 payload ++ rest) out 0 false) = UB.
Proof.
  intros Hv Hsrc Hno Hlen.
  unfold receive_text, receive_v10, mk_world. rewrite Hv. simpl (NETCONFV10 =? NETCONFV10).
  rewrite (read_until_beyond_buffer_aux env_ok s NC_V10_END_MSG (frame_v10 payload) rest
             out 0).
  - reflexivity.
  - exact Hsrc.
  - unfold frame_v10. destruct payload; discriminate.
  - exact Hno.
  - apply ends_with_last.
  - unfold frame_v10. rewrite length_app. simpl. lia.
  - unfold frame_v10. rewrite length_app.
    change (start_buflen 0) with 1024. simpl length. lia.
Qed.

Lemma v10_first_message_too_long_witness :
  receive_text (session_on NETCONFV10 1)
    (mk_world (frame_v10 (repeat "a"%byte 1018) ++ []) [] 0 false)
  = UB.
Proof.
  apply v10_first_message_too_long.
  - reflexivity.
  - discriminate.
  - apply no_earlier_match_by_enumeration. vm_compute. reflexivity.
  - rewrite repeat_length. lia.
Defined.

(** ** Version 1.1 messages *)

Lemma c_str_is_text (buf : list byte) : no_nul (c_str buf).
Proof.
  induction buf as [|b buf IH]; simpl; [constructor|].
  unfold is_nul. destruct (Byte.eqb b NUL) eqn:E; constructor; auto.
  now apply Byte.eqb_false.
Qed.

Lemma dec_d_of_length (n : Z) :
  0 <= n < 2 ^ 31 -> dec_d (int_of_size n) = dec_u n.
Proof.
  intros Hn. unfold int_of_size, INT32_MOD.
  rewrite Z.mod_small by lia.
  destruct (Z.ltb_spec n (2 ^ 31)); [|lia].
  unfold dec_d. destruct (Z.ltb_spec n 0); [lia|reflexivity].
Qed.

Lemma written_written (w : world) (a b : cstring) :
  written (written w a) b = written w (a ++ b).
Proof. unfold written. cbn. now rewrite app_assoc. Qed.

Lemma written_env (w : world) (t : cstring) : w_env (written w t) = w_env w.
Proof. reflexivity. Qed.

Lemma nc_write_taken (text : cstring) (w : world) :
  write_taken (w_env w) = true -> nc_write text w = Ok tt (written w text).
Proof. intros H. unfold nc_write. now rewrite H. Qed.

Lemma nc_write_refused (text : cstring) (w : world) :
  write_taken (w_env w) = false -> nc_write text w = UB.
Proof. intros H. unfold nc_write. now rewrite H. Qed.

(** X18. What [nc_session_send] does. Without a channel or an output
    descriptor it fails and writes nothing. On a transport that takes
    the bytes it writes the text of the document, then the version
    1.0 terminator, unless the session speaks version 1.1, where it
    writes the text as one chunk and the version 1.1 terminator. On
    a transport that refuses the bytes the first [NC_WRITE] leaves [c]
    negative and the call is undefined. *)
Theorem send_writes_one_frame (dump : xmlDoc -> cstring) (s : nc_session) (msg : nc_msg)
    (w : world) :
  Z.of_nat (length (c_str (dump (msg_doc msg)))) < 2 ^ 31 ->
  nc_session_send dump s msg w
  = if negb (ssh_channel s) && (fd_output s =? -1) then Failure w
    else if write_taken (w_env w)
    then Ok tt (written w (if version s =? NETCONFV11
                           then frame_v11 [c_str (dump (msg_doc msg))]
                           else frame_v10 (c_str (dump (msg_doc msg)))))
    else UB.
Proof.
  intros Hlen. unfold nc_session_send.
  destruct (negb (ssh_channel s) && (fd_output s =? -1)); [reflexivity|].
  destruct (write_taken (w_env w)) eqn:Hw.
  - destruct (version s =? NETCONFV11); cbn [bind];
      repeat (rewrite nc_write_taken by (rewrite ?written_env; exact Hw); cbn [bind]).
    + rewrite dec_d_of_length by lia.
      unfold frame_v11, chunk_frame. cbn [map concat].
      rewrite !written_written, app_nil_r, <- !app_assoc. reflexivity.
    + unfold frame_v10. now rewrite written_written.
  - destruct (version s =? NETCONFV11); cbn [bind];
      now rewrite nc_write_refused by exact Hw.
Qed.

Lemma send_writes_one_frame_witness :
  nc_session_send dump_doc (session_on NETCONFV11 1) (request rpc_get) (world0 [])
  = (if negb (ssh_channel (session_on NETCONFV11 1)) &&
        (fd_output (session_on NETCONFV11 1) =? -1)
     then Failure (world0 [])
     else if write_taken (w_env (world0 []))
     then Ok tt (written (world0 [])
                   (if version (session_on NETCONFV11 1) =? NETCONFV11
                    then frame_v11 [c_str (dump_doc (msg_doc (request rpc_get)))]
                    else frame_v10 (c_str (dump_doc (msg_doc (request rpc_get))))))
     else UB) /\
  nc_session_send dump_doc (session_on NETCONFV11 1) (request rpc_get)
    (mk_world_in env_refusing [] [] 0 false)
  = UB.
Proof.
  split.
  - apply send_writes_one_frame. vm_compute. reflexivity.
  - rewrite send_writes_one_frame by (vm_compute; reflexivity). reflexivity.
Defined.

(** X19. Version 1.1 round trip through the code's own encoder. On a
    transport that takes the bytes, [nc_session_send] of a document
    with a non-empty text succeeds, and what it has written, read by
    the decoder of a version 1.1 session whose [malloc] serves the
    size of the text, is that text. *)
Theorem v11_send_then_receive (dump : xmlDoc -> cstring) (s r : nc_session)
    (msg : nc_msg) (w : world) (e : env) :
  version s = NETCONFV11 ->
  ssh_channel s = true \/ fd_output s <> -1 ->
  write_taken (w_env w) = true ->
  version r = NETCONFV11 ->
  source_of r <> SrcNone ->
  served e (c_str (dump (msg_doc msg))) ->
  c_str (dump (msg_doc msg)) <> [] ->
  Z.of_nat (length (c_str (dump (msg_doc msg)))) < 2 ^ 31 ->
  exists wire,
    nc_session_send dump s msg w = Ok tt (written w wire) /\
    receive_text r (mk_world_in e wire [] 0 false)
    = Ok (Some (c_str (dump (msg_doc msg)))) (mk_world_in e [] [] 1024 false).
Proof.
  intros Hv Hout Hw Hvr Hsrc Hserved Hne Hlen.
  exists (frame_v11 [c_str (dump (msg_doc msg))]). split.
  - unfold nc_session_send.
    replace (negb (ssh_channel s) && (fd_output s =? -1)) with false.
    + rewrite Hv. simpl (NETCONFV11 =? NETCONFV11).
      rewrite dec_d_of_length by lia.
      repeat (rewrite nc_write_taken by (rewrite ?written_env; exact Hw); cbn [bind]).
      unfold frame_v11, chunk_frame. cbn [map concat].
      rewrite !written_written, app_nil_r, <- !app_assoc. reflexivity.
    + destruct Hout as [->|Hfd]; [reflexivity|].
      destruct (Z.eqb_spec (fd_output s) (-1)); [contradiction|].
      now rewrite andb_false_r.
  - unfold receive_text. rewrite Hvr. simpl (NETCONFV11 =? NETCONFV10).
    simpl (NETCONFV11 =? NETCONFV11). unfold receive_v11. cbn [w_in].
    rewrite <- (app_nil_r (frame_v11 [c_str (dump (msg_doc msg))])) at 2.
    rewrite receive_v11_loop_chunks.
    + reflexivity.
    + exact Hsrc.
    + left; reflexivity.
    + repeat constructor; auto using c_str_is_text.
      unfold UINT64_MAX. assert (2 ^ 31 < 2 ^ 64 - 1) by reflexivity. lia.
    + repeat constructor. exact Hserved.
    + pose proof (frame_v11_length [c_str (dump (msg_doc msg))]). simpl length in *. lia.
Qed.

Lemma v11_send_then_receive_witness :
  exists wire,
    nc_session_send dump_doc (session_on NETCONFV11 1) (request rpc_get) (world0 [])
    = Ok tt (written (world0 []) wire) /\
    receive_text session_fd (mk_world_in env_small wire [] 0 false)
    = Ok (Some (c_str (dump_doc (msg_doc (request rpc_get)))))
         (mk_world_in env_small [] [] 1024 false).
Proof.
  apply v11_send_then_receive.
  - reflexivity.
  - left; reflexivity.
  - reflexivity.
  - reflexivity.
  - discriminate.
  - reflexivity.
  - vm_compute. discriminate.
  - vm_compute. reflexivity.
Defined.

(** X20. A version 1.1 stream that starts with the terminator, no chunk
    before it, leaves the text NULL; [xmlReadDoc] gets NULL, and
    [nc_session_recv_reply] goes on with the freed message as for any
    text that does not parse. *)
Theorem v11_terminator_first_undefined (parse : cstring -> option xmlDoc)
    (s : nc_session) (rest out : list byte) (bl : Z) :
  hostname s <> None ->
  version s = NETCONFV11 ->
  source_of s <> SrcNone ->
  bl = 0 \/ 1024 <= bl ->
  nc_session_recv_reply parse (Some s) (mk_world (NC_V11_END_MSG ++ rest) out bl false)
  = UB.
Proof.
  intros Hhost Hv Hsrc Hbl.
  unfold nc_session_recv_reply, nc_session_receive.
  destruct (hostname s); [|congruence].
  unfold receive_text. rewrite Hv. simpl (NETCONFV11 =? NETCONFV10).
  simpl (NETCONFV11 =? NETCONFV11). unfold receive_v11, mk_world. cbn [w_in].
  now rewrite receive_v11_loop_end.
Qed.

Lemma v11_terminator_first_undefined_witness :
  nc_session_recv_reply (read_corpus [reply7]) (Some (session_on NETCONFV11 1))
    (mk_world (NC_V11_END_MSG ++ bs "x") [] 0 false)
  = UB.
Proof.
  apply v11_terminator_first_undefined.
  - discriminate.
  - reflexivity.
  - discriminate.
  - left; reflexivity.
Defined.

(** The loop run over well-formed chunks, whatever follows them. *)
Lemma receive_v11_loop_over_chunks (e : env) (s : nc_session) (tail out : list byte) :
  source_of s <> SrcNone ->
  forall (chunks : list cstring) (fuel : nat) (text : option cstring) (bl : Z),
  bl = 0 \/ 1024 <= bl ->
  Forall chunk_ok chunks ->
  Forall (served e) chunks ->
  receive_v11_loop (length chunks + fuel) s text
    (mk_world_in e (concat (map chunk_frame chunks) ++ tail) out bl false)
  = receive_v11_loop fuel s (fold_left append_chunk chunks text)
      (mk_world_in e tail out (match chunks with [] => bl | _ => start_buflen bl end) false).
Proof.
  intros Hsrc. induction chunks as [|c cs IH]; intros fuel text bl Hbl Hok Hsv.
  - reflexivity.
  - inversion Hok as [|? ? Hc Hcs]; subst.
    inversion Hsv as [|? ? Hs1 Hs2]; subst.
    destruct (start_buflen_idem bl Hbl) as [Hidem Hbig].
    cbn [length Nat.add map concat fold_left]. rewrite <- app_assoc.
    rewrite receive_v11_loop_chunk; auto.
    rewrite IH; auto.
    destruct cs; [reflexivity|now rewrite Hidem].
Qed.

(** The first read of a round skips whatever comes before the mark. *)
Lemma receive_v11_loop_skip (e : env) (f : nat) (s : nc_session) (text : option cstring)
    (junk tail out : list byte) (bl : Z) :
  source_of s <> SrcNone ->
  bl = 0 \/ 1024 <= bl ->
  (forall k, (0 < k < length (junk ++ [LF] ++ bs "#"))%nat ->
             ends_with ([LF] ++ bs "#") (firstn k (junk ++ [LF] ++ bs "#")) = false) ->
  Z.of_nat (length junk) + 2 < start_buflen bl ->
  receive_v11_loop (S f) s text
    (mk_world_in e (junk ++ LF :: "#"%byte :: tail) out bl false)
  = receive_v11_loop (S f) s text
      (mk_world_in e (LF :: "#"%byte :: tail) out (start_buflen bl) false).
Proof.
  intros Hsrc Hbl Hno Hlen.
  destruct (start_buflen_idem bl Hbl) as [Hidem Hbig].
  rewrite !receive_v11_loop_S.
  destruct (read_until_mark e s tail out (start_buflen bl) Hsrc (or_intror Hbig)) as [r ->].
  replace (junk ++ LF :: "#"%byte :: tail) with ((junk ++ [LF] ++ bs "#") ++ tail)
    by (rewrite <- app_assoc; reflexivity).
  rewrite (read_until_found e s ([LF] ++ bs "#") (junk ++ [LF] ++ bs "#") tail out bl).
  - rewrite Hidem. reflexivity.
  - exact Hsrc.
  - destruct junk; discriminate.
  - exact Hno.
  - apply ends_with_last.
  - change ([LF] ++ bs "#") with [LF; "#"%byte]. rewrite length_app. cbn [length]. lia.
  - change ([LF] ++ bs "#") with [LF; "#"%byte]. rewrite length_app. cbn [length]. lia.
Qed.

Lemma frame_v11_starts_with_mark (chunks : list cstring) (rest : list byte) :
  exists tail, frame_v11 chunks ++ rest = LF :: "#"%byte :: tail.
Proof. destruct chunks; eexists; reflexivity. Qed.

(** X21. The version 1.1 decoder does not check what stands before a
    chunk mark: bytes in front of the message that do not hold [\n#]
    are read and dropped, and the message is decoded as without
    them. *)
Theorem v11_decoder_skips_leading_bytes (s : nc_session) (junk : list byte)
    (chunks : list cstring) (rest out : list byte) (bl : Z) :
  version s = NETCONFV11 ->
  source_of s <> SrcNone ->
  bl = 0 \/ 1024 <= bl ->
  (forall k, (0 < k < length (junk ++ [LF] ++ bs "#"))%nat ->
             ends_with ([LF] ++ bs "#") (firstn k (junk ++ [LF] ++ bs "#")) = false) ->
  Z.of_nat (length junk) + 2 < start_buflen bl ->
  chunks <> [] ->
  Forall chunk_ok chunks ->
  receive_text s (mk_world (junk ++ frame_v11 chunks ++ rest) out bl false)
  = Ok (Some (concat chunks)) (mk_world rest out (start_buflen bl) false).
Proof.
  intros Hv Hsrc Hbl Hno Hlen Hne Hok.
  destruct (start_buflen_idem bl Hbl) as [Hidem Hbig].
  unfold receive_text. rewrite Hv. simpl (NETCONFV11 =? NETCONFV10).
  simpl (NETCONFV11 =? NETCONFV11). unfold receive_v11, mk_world. cbn [w_in].
  destruct (frame_v11_starts_with_mark chunks rest) as [tail Htail].
  rewrite Htail, receive_v11_loop_skip by auto. rewrite <- Htail.
  rewrite receive_v11_loop_chunks.
  - rewrite Hidem. destruct chunks as [|c cs]; [congruence|].
    simpl fold_left. now rewrite append_chunks_some.
  - exact Hsrc.
  - now right.
  - exact Hok.
  - apply served_env_ok.
  - rewrite Htail, length_app. simpl length.
    pose proof (frame_v11_length chunks).
    assert (length (frame_v11 chunks) <= length (frame_v11 chunks ++ rest))%nat
      by (rewrite length_app; lia).
    rewrite Htail in H0. simpl length in H0. lia.
Qed.

Lemma v11_decoder_skips_leading_bytes_witness :
  receive_text (session_on NETCONFV11 1)
    (mk_world (bs "noise" ++ frame_v11 [bs "hello"] ++ bs "next") [] 0 false)
  = Ok (Some (concat [bs "hello"])) (mk_world (bs "next") [] (start_buflen 0) false).
Proof.
  apply v11_decoder_skips_leading_bytes.
  - reflexivity.
  - discriminate.
  - left; reflexivity.
  - apply no_earlier_match_by_enumeration. vm_compute. reflexivity.
  - vm_compute. reflexivity.
  - discriminate.
  - repeat constructor; discriminate.
Defined.

(** One round on a chunk that the stream does not hold in full. *)
Lemma receive_v11_loop_cut (e : env) (f : nat) (s : nc_session) (text : option cstring)
    (n : Z) (partial out : list byte) (bl : Z) :
  source_of s <> SrcNone ->
  bl = 0 \/ 1024 <= bl ->
  0 < n < UINT64_MAX ->
  Z.of_nat (length partial) < n ->
  receive_v11_loop (S f) s text
    (mk_world_in e (LF :: "#"%byte :: dec_u n ++ LF :: partial) out bl false)
  = if negb (malloc_serves e (n + 1))
    then Failure (mk_world_in e partial out (start_buflen bl) false)
    else if ssh_channel s then Failure (mk_world_in e [] out (start_buflen bl) false)
    else Hang.
Proof.
  intros Hsrc Hbl Hn Hshort.
  destruct (start_buflen_idem bl Hbl) as [Hidem Hbig].
  assert (Hn' : 0 <= n < UINT64_MOD) by (unfold UINT64_MAX, UINT64_MOD in *; lia).
  destruct (dec_u_spec n (proj1 Hn')) as (Hdne & Hdig & _ & _).
  pose proof (dec_u_length n Hn') as Hdlen.
  rewrite receive_v11_loop_S.
  destruct (read_until_mark e s (dec_u n ++ LF :: partial) out bl Hsrc Hbl) as [r ->].
  unfold bind at 1.
  rewrite read_until_line; auto using digits_no_lf; [|lia].
  unfold bind at 1. cbv zeta. cbn [fst].
  rewrite c_str_no_nul
    by (apply no_nul_app; [now apply digits_no_nul | repeat constructor; discriminate]).
  replace (streq (dec_u n ++ [LF]) (bs "#" ++ [LF])) with false.
  2:{ symmetry. apply bytes_eqb_neq.
      destruct (dec_u n) as [|d ds]; [congruence|].
      inversion Hdig as [|? ? Hd _]; subst.
      destruct (is_digit_plain d Hd) as (_ & _ & Hh & _).
      simpl. intros E. injection E as E _. contradiction. }
  unfold strtoul. rewrite strtoull_dec_u by (auto; lia).
  destruct (Z.eqb_spec n 0); [lia|].
  rewrite Hidem, read_len_takes_exactly_aux by (auto; lia).
  destruct (negb (malloc_serves e (n + 1))); [reflexivity|].
  destruct (Z.leb_spec n (Z.of_nat (length partial))); [lia|].
  destruct (ssh_channel s); reflexivity.
Qed.

(** X22. A stream that ends inside a chunk, after any number of whole
    chunks which [malloc] serves. When [malloc] does not serve the
    length the last header announces, [nc_session_recv_reply] returns
    0 and no message, and the bytes after the header stay unread.
    Otherwise it returns 0 and no message on an SSH channel, where
    libssh2 reports the end of the stream, and does not return on a
    file descriptor. *)
Theorem v11_stream_ends_in_chunk (parse : cstring -> option xmlDoc) (e : env)
    (s : nc_session) (chunks : list cstring) (n : Z) (partial out : list byte) (bl : Z) :
  hostname s <> None ->
  version s = NETCONFV11 ->
  source_of s <> SrcNone ->
  bl = 0 \/ 1024 <= bl ->
  Forall chunk_ok chunks ->
  Forall (served e) chunks ->
  0 < n < UINT64_MAX ->
  Z.of_nat (length partial) < n ->
  nc_session_recv_reply parse (Some s)
    (mk_world_in e (concat (map chunk_frame chunks) ++
                    LF :: "#"%byte :: dec_u n ++ LF :: partial) out bl false)
  = if negb (malloc_serves e (n + 1))
    then Ok (0, None) (mk_world_in e partial out (start_buflen bl) false)
    else if ssh_channel s
    then Ok (0, None) (mk_world_in e [] out (start_buflen bl) false)
    else Hang.
Proof.
  intros Hhost Hv Hsrc Hbl Hok Hsv Hn Hshort.
  destruct (start_buflen_idem bl Hbl) as [Hidem Hbig].
  unfold nc_session_recv_reply, nc_session_receive.
  destruct (hostname s); [|congruence].
  unfold receive_text. rewrite Hv. simpl (NETCONFV11 =? NETCONFV10).
  simpl (NETCONFV11 =? NETCONFV11). unfold receive_v11. cbn [w_in].
  pose proof (chunks_length chunks ("#"%byte :: dec_u n ++ LF :: partial)) as Hlen.
  set (input := concat (map chunk_frame chunks) ++ _) in *.
  replace (S (length input))
    with (length chunks + S (length input - length chunks))%nat by lia.
  subst input.
  rewrite receive_v11_loop_over_chunks by auto.
  rewrite receive_v11_loop_cut; auto.
  - destruct (negb (malloc_serves e (n + 1))).
    + cbn [bind]. destruct chunks; [reflexivity|now rewrite Hidem].
    + destruct (ssh_channel s); [|reflexivity].
      cbn [bind]. destruct chunks; [reflexivity|now rewrite Hidem].
  - destruct chunks; [exact Hbl|now right].
Qed.

Lemma v11_stream_ends_in_chunk_witness :
  nc_session_recv_reply (read_corpus [reply7]) (Some session_fd)
    (mk_world_in env_small (concat (map chunk_frame [bs "hello"]) ++
                            LF :: "#"%byte :: dec_u 4096 ++ LF :: bs " wor") [] 0 false)
  = (if negb (malloc_serves env_small (4096 + 1))
     then Ok (0, None) (mk_world_in env_small (bs " wor") [] (start_buflen 0) false)
     else if ssh_channel session_fd
     then Ok (0, None) (mk_world_in env_small [] [] (start_buflen 0) false)
     else Hang) /\
  nc_session_recv_reply (read_corpus [reply7]) (Some session_fd)
    (mk_world_in env_small (concat (map chunk_frame [bs "hello"]) ++
                            LF :: "#"%byte :: dec_u 6 ++ LF :: bs " wor") [] 0 false)
  = (if negb (malloc_serves env_small (6 + 1))
     then Ok (0, None) (mk_world_in env_small (bs " wor") [] (start_buflen 0) false)
     else if ssh_channel session_fd
     then Ok (0, None) (mk_world_in env_small [] [] (start_buflen 0) false)
     else Hang).
Proof.
  split; apply v11_stream_ends_in_chunk.
  - discriminate.
  - reflexivity.
  - discriminate.
  - left; reflexivity.
  - repeat constructor; discriminate.
  - repeat constructor.
  - split; reflexivity.
  - reflexivity.
  - discriminate.
  - reflexivity.
  - discriminate.
  - left; reflexivity.
  - repeat constructor; discriminate.
  - repeat constructor.
  - split; reflexivity.
  - reflexivity.
Defined.

(** ** [nc_session_send_rpc] *)

Lemma send_rpc_rpc_ok (dump : xmlDoc -> cstring) (s : nc_session) (rpc : nc_msg)
    (w : world) (root : xmlNode) (others : list xmlNode) :
  hostname s <> None ->
  ssh_channel s = true \/ fd_output s <> -1 ->
  write_taken (w_env w) = true ->
  doc_children (msg_doc rpc) = root :: others ->
  node_name root = bs "rpc" ->
  0 <= msgid s < 10 ^ 15 ->
  exists msg w1,
    stamp_rpc s rpc = Some (set_msgid s (msgid s + 1), msg) /\
    nc_session_send dump (set_msgid s (msgid s + 1)) msg w = Ok tt w1 /\
    w_env w1 = w_env w /\
    nc_session_send_rpc dump (Some s) rpc w
    = Ok (msgid s + 1, Some (set_msgid s (msgid s + 1))) w1.
Proof.
  intros Hhost Hout Hw Hdoc Hname Hid.
  pose proof (stamp_rpc_rpc s rpc root others Hdoc Hname Hid) as Hstamp.
  destruct (send_succeeds dump (set_msgid s (msgid s + 1))
              (mk_msg (mk_doc (xmlNewNs (xmlSetProp root (bs "message-id")
                                           (dec_u (msgid s)))
                                 (if version s =? NETCONFV10
                                  then NC_NS_BASE10 else NC_NS_BASE11) :: others))
                      (msg_msgid rpc) (msg_type rpc)) w Hout Hw) as (w1 & Hsend & Henv).
  do 2 eexists. split; [exact Hstamp|]. split; [exact Hsend|]. split; [exact Henv|].
  unfold nc_session_send_rpc.
  destruct (hostname s); [|congruence].
  rewrite Hstamp, Hsend. reflexivity.
Qed.

(** X23. [nc_session_send_rpc] of an [<rpc>], with the counter below
    10^15, on a transport that takes the bytes written: the message
    sent carries the counter as its [message-id], the session is left
    with the counter plus one, and that, not the id sent, is the value
    returned. *)
Theorem send_rpc_stamps_counter (dump : xmlDoc -> cstring) (s : nc_session)
    (rpc : nc_msg) (w : world) (root : xmlNode) (others : list xmlNode) :
  hostname s <> None ->
  ssh_channel s = true \/ fd_output s <> -1 ->
  write_taken (w_env w) = true ->
  doc_children (msg_doc rpc) = root :: others ->
  node_type root = XML_ELEMENT_NODE ->
  node_name root = bs "rpc" ->
  0 <= msgid s < 10 ^ 15 ->
  exists msg w1 sent,
    nc_session_send dump (set_msgid s (msgid s + 1)) msg w = Ok tt w1 /\
    doc_children (msg_doc msg) = sent :: others /\
    xmlGetProp (Some sent) (bs "message-id") = Some (dec_u (msgid s)) /\
    nc_session_send_rpc dump (Some s) rpc w
    = Ok (msgid s + 1, Some (set_msgid s (msgid s + 1))) w1.
Proof.
  intros Hhost Hout Hw Hdoc Htype Hname Hid.
  destruct (send_rpc_rpc_ok dump s rpc w root others Hhost Hout Hw Hdoc Hname Hid)
    as (msg & w1 & Hstamp & Hsend & _ & Hrun).
  rewrite (stamp_rpc_rpc s rpc root others Hdoc Hname Hid) in Hstamp.
  injection Hstamp as <-.
  do 3 eexists. split; [exact Hsend|]. split; [reflexivity|]. split; [|exact Hrun].
  destruct root as [ty name props ns kids content]. simpl in Htype. subst ty.
  simpl. destruct (has_default_ns ns); simpl; apply assoc_set_assoc.
Qed.

Lemma send_rpc_stamps_counter_witness :
  exists msg w1 sent,
    nc_session_send dump_doc (set_msgid (session_on NETCONFV10 41)
                                (msgid (session_on NETCONFV10 41) + 1)) msg (world0 [])
    = Ok tt w1 /\
    doc_children (msg_doc msg) = sent :: [] /\
    xmlGetProp (Some sent) (bs "message-id")
    = Some (dec_u (msgid (session_on NETCONFV10 41))) /\
    nc_session_send_rpc dump_doc (Some (session_on NETCONFV10 41)) (request rpc_get)
      (world0 [])
    = Ok (msgid (session_on NETCONFV10 41) + 1,
          Some (set_msgid (session_on NETCONFV10 41)
                  (msgid (session_on NETCONFV10 41) + 1))) w1.
Proof.
  apply (send_rpc_stamps_counter dump_doc (session_on NETCONFV10 41) (request rpc_get)
           (world0 []) (elem "rpc" [] [elem "get" [] []]) []).
  - discriminate.
  - left; reflexivity.
  - reflexivity.
  - reflexivity.
  - reflexivity.
  - reflexivity.
  - split; [discriminate|reflexivity].
Defined.

Lemma set_msgid_same (s : nc_session) : set_msgid s (msgid s) = s.
Proof. now destruct s. Qed.

(** X24. An [<rpc>] that cannot be sent for want of a transport leaves
    the session exactly as it was: the counter raised for the stamp is
    lowered again, and 0 is returned. *)
Theorem send_rpc_failure_restores_counter (dump : xmlDoc -> cstring) (s : nc_session)
    (rpc : nc_msg) (w : world) (root : xmlNode) (others : list xmlNode) :
  hostname s <> None ->
  ssh_channel s = false ->
  fd_output s = -1 ->
  doc_children (msg_doc rpc) = root :: others ->
  node_name root = bs "rpc" ->
  0 <= msgid s < 10 ^ 15 ->
  nc_session_send_rpc dump (Some s) rpc w = Ok (0, Some s) w.
Proof.
  intros Hhost Hch Hfd Hdoc Hname Hid.
  unfold nc_session_send_rpc.
  destruct (hostname s); [|congruence].
  rewrite (stamp_rpc_rpc s rpc root others Hdoc Hname Hid).
  unfold nc_session_send. cbn [set_msgid ssh_channel fd_output msgid].
  rewrite Hch, Hfd. cbn [negb andb Z.eqb].
  replace ((msgid s + 1 - 1) mod UINT64_MOD) with (msgid s).
  - destruct s; reflexivity.
  - symmetry. replace (msgid s + 1 - 1) with (msgid s) by lia.
    apply Z.mod_small. unfold UINT64_MOD.
    assert (10 ^ 15 < 2 ^ 64) by reflexivity. lia.
Qed.

Lemma send_rpc_failure_restores_counter_witness :
  nc_session_send_rpc dump_doc (Some (session_off NETCONFV11 9)) (request rpc_get)
    (world0 [])
  = Ok (0, Some (session_off NETCONFV11 9)) (world0 []).
Proof.
  apply (send_rpc_failure_restores_counter dump_doc (session_off NETCONFV11 9)
           (request rpc_get) (world0 []) (elem "rpc" [] [elem "get" [] []]) []).
  - discriminate.
  - reflexivity.
  - reflexivity.
  - reflexivity.
  - reflexivity.
  - split; [discriminate|reflexivity].
Defined.

(** X25. A message whose root is not [<rpc>] and that cannot be sent
    lowers the counter by one, modulo 2^64: nothing had raised it. *)
Theorem send_rpc_failure_lowers_counter (dump : xmlDoc -> cstring) (s : nc_session)
    (rpc : nc_msg) (w : world) (root : xmlNode) (others : list xmlNode) :
  hostname s <> None ->
  ssh_channel s = false ->
  fd_output s = -1 ->
  doc_children (msg_doc rpc) = root :: others ->
  node_name root <> bs "rpc" ->
  nc_session_send_rpc dump (Some s) rpc w
  = Ok (0, Some (set_msgid s ((msgid s - 1) mod UINT64_MOD))) w.
Proof. apply send_rpc_failure_decrements. Qed.

Lemma send_rpc_failure_lowers_counter_witness :
  nc_session_send_rpc dump_doc (Some (session_off NETCONFV10 0)) (request hello) (world0 [])
  = Ok (0, Some (set_msgid (session_off NETCONFV10 0)
                   ((msgid (session_off NETCONFV10 0) - 1) mod UINT64_MOD)))
       (world0 []).
Proof.
  apply (send_rpc_failure_lowers_counter dump_doc (session_off NETCONFV10 0)
           (request hello) (world0 []) (elem "hello" [] []) []).
  - discriminate.
  - reflexivity.
  - reflexivity.
  - reflexivity.
  - discriminate.
Defined.

(** X26. On a transport that takes the bytes written, a message whose
    root is not [<rpc>] is sent without a [message-id] of the session:
    its attributes are those of the caller's document, the counter
    does not move, and the value returned is the counter. *)
Theorem send_rpc_other_root_unstamped (dump : xmlDoc -> cstring) (s : nc_session)
    (rpc : nc_msg) (w : world) (root : xmlNode) (others : list xmlNode) :
  hostname s <> None ->
  ssh_channel s = true \/ fd_output s <> -1 ->
  write_taken (w_env w) = true ->
  doc_children (msg_doc rpc) = root :: others ->
  node_name root <> bs "rpc" ->
  exists msg w1 sent,
    nc_session_send dump s msg w = Ok tt w1 /\
    doc_children (msg_doc msg) = sent :: others /\
    node_properties sent = node_properties root /\
    nc_session_send_rpc dump (Some s) rpc w = Ok (msgid s, Some s) w1.
Proof.
  intros Hhost Hout Hw Hdoc Hname.
  assert (Hstamp : stamp_rpc s rpc
                   = Some (s, mk_msg (mk_doc (xmlNewNs root
                                                (if version s =? NETCONFV10
                                                 then NC_NS_BASE10 else NC_NS_BASE11)
                                              :: others))
                                     (msg_msgid rpc) (msg_type rpc))).
  { unfold stamp_rpc, nc_msg_dup. rewrite Hdoc.
    unfold streq. now rewrite (bytes_eqb_neq _ _ Hname). }
  destruct (send_succeeds dump s
              (mk_msg (mk_doc (xmlNewNs root (if version s =? NETCONFV10
                                              then NC_NS_BASE10 else NC_NS_BASE11)
                               :: others))
                      (msg_msgid rpc) (msg_type rpc)) w Hout Hw) as (w1 & Hsend & _).
  do 3 eexists. split; [exact Hsend|]. split; [reflexivity|]. split.
  - destruct root as [ty name props ns kids content]. simpl.
    destruct ty; simpl; try reflexivity. now destruct (has_default_ns ns).
  - unfold nc_session_send_rpc. destruct (hostname s); [|congruence].
    now rewrite Hstamp, Hsend.
Qed.

Lemma send_rpc_other_root_unstamped_witness :
  exists msg w1 sent,
    nc_session_send dump_doc (session_on NETCONFV10 5) msg (world0 []) = Ok tt w1 /\
    doc_children (msg_doc msg) = sent :: [] /\
    node_properties sent = node_properties (elem "hello" [] []) /\
    nc_session_send_rpc dump_doc (Some (session_on NETCONFV10 5)) (request hello) (world0 [])
    = Ok (msgid (session_on NETCONFV10 5), Some (session_on NETCONFV10 5)) w1.
Proof.
  apply (send_rpc_other_root_unstamped dump_doc (session_on NETCONFV10 5) (request hello)
           (world0 []) (elem "hello" [] []) []).
  - discriminate.
  - left; reflexivity.
  - reflexivity.
  - reflexivity.
  - discriminate.
Defined.

(** X27. Calls of [nc_session_send_rpc] in a row, each with an
    [<rpc>], on a transport that takes the bytes written: the values
    returned are consecutive, starting one above the counter, and the
    counter ends that many higher. *)
Theorem send_rpcs_consecutive (dump : xmlDoc -> cstring) :
  forall (rpcs : list nc_msg) (s : nc_session) (w : world),
  hostname s <> None ->
  ssh_channel s = true \/ fd_output s <> -1 ->
  write_taken (w_env w) = true ->
  Forall (fun rpc => exists root others,
            doc_children (msg_doc rpc) = root :: others /\ node_name root = bs "rpc")
         rpcs ->
  0 <= msgid s ->
  msgid s + Z.of_nat (length rpcs) <= 10 ^ 15 ->
  exists w',
    send_rpcs dump (Some s) rpcs w
    = Ok (map (fun i => msgid s + 1 + Z.of_nat i) (seq 0 (length rpcs)),
          Some (set_msgid s (msgid s + Z.of_nat (length rpcs)))) w'.
Proof.
  induction rpcs as [|rpc rpcs IH]; intros s w Hhost Hout Hw Hall Hpos Hmax.
  - exists w. simpl. now rewrite Z.add_0_r, set_msgid_same.
  - inversion Hall as [|? ? (root & others & Hdoc & Hname) Hrest]; subst.
    destruct (send_rpc_rpc_ok dump s rpc w root others Hhost Hout Hw Hdoc Hname)
      as (msg & w1 & _ & _ & Henv & Hrun); [simpl length in Hmax; lia|].
    rewrite <- Henv in Hw.
    destruct (IH (set_msgid s (msgid s + 1)) w1 Hhost Hout Hw Hrest) as [w' Hrec].
    + cbn [set_msgid msgid]. lia.
    + cbn [set_msgid msgid]. simpl length in Hmax. lia.
    + exists w'. cbn [send_rpcs]. rewrite Hrun. cbn [bind snd fst].
      rewrite Hrec. cbn [bind snd fst length seq map].
      rewrite <- seq_shift, map_map. cbn [set_msgid msgid].
      f_equal. f_equal.
      * f_equal; [lia|]. apply map_ext. intros i. lia.
      * f_equal. unfold set_msgid. cbn. f_equal. lia.
Qed.

Lemma send_rpcs_consecutive_witness :
  exists w',
    send_rpcs dump_doc (Some (session_on NETCONFV10 1))
      [request rpc_get; request rpc_get; request rpc_get] (world0 [])
    = Ok (map (fun i => msgid (session_on NETCONFV10 1) + 1 + Z.of_nat i)
              (seq 0 (length [request rpc_get; request rpc_get; request rpc_get])),
          Some (set_msgid (session_on NETCONFV10 1)
                  (msgid (session_on NETCONFV10 1) +
                   Z.of_nat (length [request rpc_get; request rpc_get; request rpc_get]))))
         w'.
Proof.
  apply send_rpcs_consecutive.
  - discriminate.
  - left; reflexivity.
  - reflexivity.
  - repeat constructor; exists (elem "rpc" [] [elem "get" [] []]), []; split; reflexivity.
  - discriminate.
  - discriminate.
Defined.

Lemma is_digit_value (b : byte) : is_digit b = true -> 0 <= digit_val b <= 9.
Proof.
  unfold is_digit, digit_val. intros H. apply andb_prop in H as [H1 H2].
  apply Z.leb_le in H1. apply Z.leb_le in H2. lia.
Qed.

Lemma strtou_digits_below : forall (ds : cstring) (a : Z),
  0 <= a ->
  Forall (fun b => is_digit b = true) ds ->
  strtou_digits a ds < (a + 1) * 10 ^ Z.of_nat (length ds).
Proof.
  induction ds as [|d ds IH]; intros a Ha Hall.
  - simpl. lia.
  - inversion Hall as [|? ? Hd Hds]; subst.
    pose proof (is_digit_value d Hd) as Hv.
    cbn [strtou_digits length]. rewrite Hd.
    specialize (IH (a * 10 + digit_val d) ltac:(lia) Hds).
    rewrite Nat2Z.inj_succ, Z.pow_succ_r by lia.
    assert (0 < 10 ^ Z.of_nat (length ds)) by (apply Z.pow_pos_nonneg; lia).
    nia.
Qed.

(** A number from 10^15 on prints in 16 digits or more. *)
Lemma dec_u_long (n : Z) : 10 ^ 15 <= n -> (16 <= length (dec_u n))%nat.
Proof.
  intros Hn.
  assert (H0 : 0 <= n) by (assert (0 < 10 ^ 15) by reflexivity; lia).
  destruct (dec_u_spec n H0) as (_ & Hall & Hval & _).
  pose proof (strtou_digits_below (dec_u n) 0 ltac:(lia) Hall) as Hlt.
  specialize (Hval 0 []). rewrite app_nil_r in Hval. simpl in Hval.
  rewrite Hval in Hlt.
  destruct (Nat.le_gt_cases 16 (length (dec_u n))) as [|Hshort]; auto.
  exfalso.
  assert (10 ^ Z.of_nat (length (dec_u n)) <= 10 ^ 15)
    by (apply Z.pow_le_mono_r; lia).
  lia.
Qed.

(** X28. From a counter of 10^15 on, [nc_session_send_rpc] of an [<rpc>]
    is undefined: [sprintf] writes 16 digits or more and the NUL into
    the 16 bytes of [msg_id_str]. *)
Theorem send_rpc_counter_overflows_buffer (dump : xmlDoc -> cstring) (s : nc_session)
    (rpc : nc_msg) (w : world) (root : xmlNode) (others : list xmlNode) :
  hostname s <> None ->
  doc_children (msg_doc rpc) = root :: others ->
  node_name root = bs "rpc" ->
  10 ^ 15 <= msgid s ->
  nc_session_send_rpc dump (Some s) rpc w = UB.
Proof.
  intros Hhost Hdoc Hname Hid.
  unfold nc_session_send_rpc, stamp_rpc, nc_msg_dup.
  destruct (hostname s); [|congruence].
  rewrite Hdoc, Hname. unfold streq. rewrite bytes_eqb_refl.
  pose proof (dec_u_long (msgid s) Hid) as Hlen.
  destruct (Z.leb_spec (Z.of_nat (length (dec_u (msgid s))) + 1) 16); [lia|].
  reflexivity.
Qed.

Lemma send_rpc_counter_overflows_buffer_witness :
  nc_session_send_rpc dump_doc (Some (session_on NETCONFV10 (10 ^ 15))) (request rpc_get)
    (world0 [])
  = UB.
Proof.
  apply (send_rpc_counter_overflows_buffer dump_doc (session_on NETCONFV10 (10 ^ 15))
           (request rpc_get) (world0 []) (elem "rpc" [] [elem "get" [] []]) []).
  - discriminate.
  - reflexivity.
  - reflexivity.
  - cbn [session_on msgid]. lia.
Defined.

(** ** [nc_session_recv_reply] *)

(** X29. A message whose text the XML reader rejects never makes
    [nc_session_recv_reply] return, whatever the reader: the branch
    that meets the NULL document frees the message and goes on to use
    it. *)
Theorem recv_reply_rejected_text_undefined (parse : cstring -> option xmlDoc)
    (s : nc_session) (w w1 : world) (text : cstring) :
  hostname s <> None ->
  receive_text s w = Ok (Some text) w1 ->
  parse text = None ->
  nc_session_recv_reply parse (Some s) w = UB.
Proof. apply recv_reply_parse_failure. Qed.

Lemma recv_reply_rejected_text_undefined_witness :
  nc_session_recv_reply (read_corpus [reply7]) (Some (session_on NETCONFV11 1))
    (world0 (frame_v11 [bs "<x/>"]))
  = UB.
Proof.
  apply (recv_reply_rejected_text_undefined (read_corpus [reply7])
           (session_on NETCONFV11 1) (world0 (frame_v11 [bs "<x/>"]))
           (mk_world [] [] 1024 false) (bs "<x/>")).
  - discriminate.
  - vm_compute. reflexivity.
  - vm_compute. reflexivity.
Defined.

(** X30. An [<rpc-reply>] without any child makes
    [nc_session_recv_reply] undefined: the code reads the name of
    [doc->children->children], which is NULL. *)
Theorem recv_reply_childless_reply_undefined (parse : cstring -> option xmlDoc)
    (s : nc_session) (w w1 : world) (text : cstring) (doc : xmlDoc) (root : xmlNode)
    (others : list xmlNode) :
  hostname s <> None ->
  receive_text s w = Ok (Some text) w1 ->
  parse text = Some doc ->
  doc_children doc = root :: others ->
  node_name root = bs "rpc-reply" ->
  node_children root = [] ->
  nc_session_recv_reply parse (Some s) w = UB.
Proof.
  intros Hhost Htext Hparse Hdoc Hname Hkids.
  unfold nc_session_recv_reply, nc_session_receive.
  destruct (hostname s); [|congruence].
  rewrite Htext. unfold bind, msg_of_text. rewrite Hparse, Hdoc, Hname, Hkids.
  unfold streq. now rewrite bytes_eqb_refl.
Qed.

Lemma recv_reply_childless_reply_undefined_witness :
  nc_session_recv_reply
    (read_corpus [mk_doc [elem "rpc-reply" [("message-id", "7")%string] []]])
    (Some (session_on NETCONFV11 1))
    (world0 (frame_v11 [dump_doc (mk_doc [elem "rpc-reply" [("message-id", "7")%string] []])]))
  = UB.
Proof.
  apply (recv_reply_childless_reply_undefined _ (session_on NETCONFV11 1) _
           (mk_world [] [] 1024 false)
           (dump_doc (mk_doc [elem "rpc-reply" [("message-id", "7")%string] []]))
           (mk_doc [elem "rpc-reply" [("message-id", "7")%string] []])
           (elem "rpc-reply" [("message-id", "7")%string] []) []).
  - discriminate.
  - vm_compute. reflexivity.
  - vm_compute. reflexivity.
  - reflexivity.
  - reflexivity.
  - reflexivity.
Defined.
